(** * rbc-codex-proxy: the credential cache, the forwarding handler and the
      metrics collector, embedded from the JavaScript sources.

    - [Metrics]  : [MetricsCollector]  (metrics.js)
    - [OAuth]    : [OAuthManager]      (src/oauth-manager.js)
    - [Proxy]    : [ProxyHandler]      (proxy-handler.js)

    Instants are epoch milliseconds in [Z], as [Date.now()] returns them.
    A JavaScript object used as a dictionary is a [gmap] when only lookups
    matter and an insertion-ordered association list when the iteration
    order is observed ([Map.keys()], [Object.entries]). *)

From Stdlib Require Import QArith Qcanon.
From stdpp Require Import gmap strings list fin_maps.

Set Warnings "-register-all".

Local Open Scope string_scope.
Local Open Scope list_scope.
Local Open Scope Z_scope.

(** ** Insertion-ordered dictionaries

    A JavaScript [Map] (and a plain object with non-index string keys)
    iterates its keys in the order of their first insertion; writing to a key
    that is already present replaces the value and leaves the key where it
    is. *)
Section OrderedDict.
Context {K V : Type} `{EqDecision K}.

Fixpoint od_set (k : K) (v : V) (m : list (K * V)) : list (K * V) :=
  match m with
  | [] => [(k, v)]
  | (k', v') :: m' =>
      if decide (k' = k) then (k, v) :: m' else (k', v') :: od_set k v m'
  end.

Fixpoint od_get (k : K) (m : list (K * V)) : option V :=
  match m with
  | [] => None
  | (k', v') :: m' => if decide (k' = k) then Some v' else od_get k m'
  end.

Definition od_delete (k : K) (m : list (K * V)) : list (K * V) :=
  filter (λ kv, kv.1 ≠ k) m.

Definition od_keys (m : list (K * V)) : list K := m.*1.
End OrderedDict.

(** [l.slice(-n)]: the last [n] elements of [l] (all of [l] when it is
    shorter). *)
Definition slice_last {A} (n : nat) (l : list A) : list A :=
  drop (length l - n) l.


(** JavaScript truthiness of a string: every string but the empty one. *)
Definition truthy_string (s : string) : bool := bool_decide (s ≠ "").

(** ** JSON values, as the handlers see them

    A number is [NaN] or a finite number, kept as the rational it denotes:
    the proxy tests numbers for truthiness and passes them on, it never
    calculates with them. *)
Inductive number :=
| NaN
| Fin (q : Qc).

Inductive value :=
| VUndefined
| VNull
| VBool (b : bool)
| VNum (n : number)
| VStr (s : string)
| VArray (items : list value)
| VObject (fields : list (string * value)).

Definition truthy_number (n : number) : bool :=
  match n with
  | NaN => false
  | Fin q => bool_decide (q ≠ 0%Qc)
  end.

Definition truthy (v : value) : bool :=
  match v with
  | VUndefined | VNull => false
  | VBool b => b
  | VNum n => truthy_number n
  | VStr s => truthy_string s
  | VArray _ | VObject _ => true
  end.

(** Reading a property of a JSON object: [undefined] when it is absent. *)
Definition prop (o : gmap string value) (key : string) : value :=
  default VUndefined (o !! key).

(** Reading a property that no prototype defines (such as [_proxy]) of a
    value: the own property of an object, [undefined] of anything else. *)
Definition own_prop (v : value) (key : string) : value :=
  match v with
  | VObject fields => default VUndefined (od_get key fields)
  | _ => VUndefined
  end.

(** ** What axios hands back

    [HttpResponse] is an axios response ([status], [statusText], [data]).
    Its data is the body as axios delivers it under the default response
    type: the parsed value of a JSON body, the text itself ([VStr]) of a body
    that is not JSON, the empty string of an empty body. [JsError] is a
    thrown error: [err_response] is present when the server answered with
    an error status and absent for connection failures and timeouts. *)
Record HttpResponse := {
  resp_status : Z;
  resp_statusText : string;
  resp_data : value
}.

Record JsError := {
  err_message : string;
  err_response : option HttpResponse
}.

(** * MetricsCollector (metrics.js) *)
Module Metrics.

(** The object handed to [recordRequest]. The handler also passes a
    [timestamp] property, which [recordRequest] overwrites with its own
    clock reading; [model] is [None] when the body has no model. *)
Record RequestData := {
  rd_id : string;
  rd_model : option string;
  rd_endpoint : string
}.

(** A stored request: [{...data, timestamp: new Date().toISOString()}].
    The timestamp is kept as the instant the ISO string renders. *)
Record Request := {
  rq_id : string;
  rq_model : option string;
  rq_endpoint : string;
  rq_timestamp : Z
}.

(** The object handed to [recordResponse]. *)
Record ResponseData := {
  rs_id : string;
  rs_duration : Z;
  rs_status : string;
  rs_error : option string
}.

#[global] Instance RequestData_eq_dec : EqDecision RequestData.
Proof. solve_decision. Defined.
#[global] Instance Request_eq_dec : EqDecision Request.
Proof. solve_decision. Defined.
#[global] Instance ResponseData_eq_dec : EqDecision ResponseData.
Proof. solve_decision. Defined.

(** [this.maxStoredRequests = 100], set by the constructor and never
    written again. *)
Definition maxStoredRequests : nat := 100.

(** What a property of [modelCounts] holds. [modelCounts] is a plain
    object ([{}]), so it inherits the members of [Object.prototype]. For an
    ordinary model name the property is a number, [Count n]. For a name that
    [Object.prototype] defines as a function, the first
    [(this.modelCounts[name] || 0) + 1] reads that function and glues ["1"]
    to its text, and every later one glues another ["1"] to the stored
    string: [Glued k] is the function's text followed by [k] times ["1"]. *)
Inductive Tally :=
| Count (n : nat)
| Glued (ones : nat).

#[global] Instance Tally_eq_dec : EqDecision Tally.
Proof. solve_decision. Defined.

(** The function members of [Object.prototype]. *)
Definition inherited_functions : list string :=
  ["constructor"; "__defineGetter__"; "__defineSetter__"; "hasOwnProperty";
   "__lookupGetter__"; "__lookupSetter__"; "isPrototypeOf";
   "propertyIsEnumerable"; "toString"; "valueOf"; "toLocaleString"].

Record MetricsCollector := {
  requests : list Request;                      (* oldest first *)
  responses : list (string * ResponseData);     (* a Map, in key order *)
  modelCounts : gmap string Tally;              (* own properties *)
  errorCount : nat;
  successCount : nat;
  totalDuration : Z;
  startTime : Z
}.

(** [constructor()], run at instant [now]. *)
Definition constructor (now : Z) : MetricsCollector :=
  {| requests := []; responses := []; modelCounts := ∅;
     errorCount := 0; successCount := 0; totalDuration := 0;
     startTime := now |}.

Definition stamp (data : RequestData) (now : Z) : Request :=
  {| rq_id := rd_id data; rq_model := rd_model data;
     rq_endpoint := rd_endpoint data; rq_timestamp := now |}.

(** [this.modelCounts[model] = (this.modelCounts[model] || 0) + 1],
    under [if (data.model)]. A stored number is incremented and a stored
    string gets ["1"] glued on. Without an own property the read falls
    through to [Object.prototype]: an ordinary name reads [undefined] and
    starts at 1; the name of an inherited function reads that function and
    stores its text with ["1"] glued on; [__proto__] reads the prototype
    object, and the assignment of the resulting string goes to the
    [__proto__] setter, which ignores a value that is no object, so nothing
    is stored. *)
Definition bump_model (model : option string) (mc : gmap string Tally)
  : gmap string Tally :=
  match model with
  | Some name =>
      if truthy_string name
      then match mc !! name with
           | Some (Count n) => <[name := Count (S n)]> mc
           | Some (Glued k) => <[name := Glued (S k)]> mc
           | None =>
               if bool_decide (name = "__proto__") then mc
               else if bool_decide (name ∈ inherited_functions)
               then <[name := Glued 1]> mc
               else <[name := Count 1]> mc
           end
      else mc
  | None => mc
  end.

Definition recordRequest (data : RequestData) (now : Z)
    (m : MetricsCollector) : MetricsCollector :=
  let pushed := requests m ++ [stamp data now] in
  {| requests :=
       if bool_decide (maxStoredRequests < length pushed)%nat
       then slice_last maxStoredRequests pushed
       else pushed;
     responses := responses m;
     modelCounts := bump_model (rd_model data) (modelCounts m);
     errorCount := errorCount m;
     successCount := successCount m;
     totalDuration := totalDuration m;
     startTime := startTime m |}.

(** [this.responses.keys().next().value] followed by [delete]: the key
    inserted first is removed. *)
Definition evict_oldest (rs : list (string * ResponseData))
  : list (string * ResponseData) :=
  match rs with
  | [] => rs
  | (oldestKey, _) :: _ => od_delete oldestKey rs
  end.

Definition recordResponse (data : ResponseData)
    (m : MetricsCollector) : MetricsCollector :=
  let stored := od_set (rs_id data) data (responses m) in
  let ok := bool_decide (rs_status data = "success") in
  {| requests := requests m;
     responses :=
       if bool_decide (maxStoredRequests < length stored)%nat
       then evict_oldest stored
       else stored;
     modelCounts := modelCounts m;
     errorCount := if ok then errorCount m else S (errorCount m);
     successCount := if ok then S (successCount m) else successCount m;
     totalDuration :=
       if bool_decide (rs_duration data ≠ 0)
       then totalDuration m + rs_duration data
       else totalDuration m;
     startTime := startTime m |}.

Definition reset (m : MetricsCollector) : MetricsCollector :=
  {| requests := []; responses := []; modelCounts := ∅;
     errorCount := 0; successCount := 0; totalDuration := 0;
     startTime := startTime m |}.

(** *** The hourly histogram *)

Definition ms_per_hour : Z := 60 * 60 * 1000.
Definition ms_per_day : Z := 24 * ms_per_hour.

(** [toISOString().substr(0, 13)], the text [YYYY-MM-DDTHH] of a UTC
    instant (the shape ISO text has for the years 0000 to 9999): its
    calendar day, kept as the day number the date text denotes, and its
    hour of the day. *)
Definition hour_key (t : Z) : Z * Z :=
  (t `div` ms_per_day, (t `mod` ms_per_day) `div` ms_per_hour).

(** The loop counter of [for (let i = 23; i >= 0; i--)]. *)
Definition trailing : list Z := Z.of_nat <$> reverse (seq 0 24).

(** [hourly[key] = 0] for each of the trailing 24 hours. *)
Definition hourly_init (now : Z) : list ((Z * Z) * nat) :=
  foldl (λ hourly i, od_set (hour_key (now - i * ms_per_hour)) 0%nat hourly)
        [] trailing.

(** [if (hourly.hasOwnProperty(hour)) hourly[hour]++], for one request. *)
Definition hourly_count (hourly : list ((Z * Z) * nat)) (req : Request)
  : list ((Z * Z) * nat) :=
  let hour := hour_key (rq_timestamp req) in
  match od_get hour hourly with
  | Some count => od_set hour (S count) hourly
  | None => hourly
  end.

(** One element of the array [getHourlyStats] returns:
    [{hour: hour.substr(11, 2) + ':00', count}]. *)
Record HourStat := { hs_hour : Z; hs_count : nat }.

#[global] Instance HourStat_eq_dec : EqDecision HourStat.
Proof. solve_decision. Defined.

Definition getHourlyStats (m : MetricsCollector) (now : Z) : list HourStat :=
  let hourly := foldl hourly_count (hourly_init now) (requests m) in
  (λ '(hour, count), {| hs_hour := hour.2; hs_count := count |}) <$> hourly.

(** *** Snapshots *)

(** [Math.round(a / b)] for [b > 0]: the nearest integer, halves up. *)
Definition round_div (a b : Z) : Z := (2 * a + b) `div` (2 * b).

(** The object [getMetrics] returns, without [successRate] (a string
    formatted by [toFixed] from a floating-point quotient). *)
Record Snapshot := {
  uptime : Z;
  totalRequests : nat;
  snap_successCount : nat;
  snap_errorCount : nat;
  avgResponseTime : Z;
  modelUsage : gmap string Tally;
  recentRequests : list Request;
  hourlyCounts : list HourStat
}.

Definition getMetrics (m : MetricsCollector) (now : Z) : Snapshot :=
  let total := (successCount m + errorCount m)%nat in
  {| uptime := (now - startTime m) `div` 1000;
     totalRequests := total;
     snap_successCount := successCount m;
     snap_errorCount := errorCount m;
     avgResponseTime :=
       if bool_decide (0 < total)%nat
       then round_div (totalDuration m) (Z.of_nat total) else 0;
     modelUsage := modelCounts m;
     recentRequests := reverse (slice_last 20 (requests m));
     hourlyCounts := getHourlyStats m now |}.

Record Summary := {
  total : nat;
  success : nat;
  errors : nat;
  models : nat
}.

Definition getSummary (m : MetricsCollector) : Summary :=
  {| total := (successCount m + errorCount m)%nat;
     success := successCount m;
     errors := errorCount m;
     models := size (modelCounts m) |}.

(** *** Histories of calls *)

Inductive call :=
| RecordRequest (data : RequestData) (now : Z)
| RecordResponse (data : ResponseData)
| Reset.

Definition step (m : MetricsCollector) (c : call) : MetricsCollector :=
  match c with
  | RecordRequest data now => recordRequest data now m
  | RecordResponse data => recordResponse data m
  | Reset => reset m
  end.

Definition run (m : MetricsCollector) (cs : list call) : MetricsCollector :=
  foldl step m cs.

(** *** Vocabulary for statements about histories *)

(** The hour number of an instant; [hour_key] splits it into day and
    hour of the day. *)
Definition hour_index (t : Z) : Z := t `div` ms_per_hour.

(** How many stored requests were stamped in the calendar hour of [t]. *)
Definition requests_in_hour (m : MetricsCollector) (t : Z) : nat :=
  length (filter (λ r, hour_key (rq_timestamp r) = hour_key t) (requests m)).

(** What every reachable collector satisfies: both buffers within
    capacity, and the keys of the response map pairwise distinct. *)
Definition buffers_ok (m : MetricsCollector) : Prop :=
  (length (requests m) ≤ maxStoredRequests)%nat ∧
  (length (responses m) ≤ maxStoredRequests)%nat ∧
  NoDup (od_keys (responses m)).

(** The requests a history recorded, as they were stamped. *)
Definition recorded_requests (cs : list call) : list Request :=
  omap (λ c, match c with
             | RecordRequest data now => Some (stamp data now)
             | _ => None
             end) cs.

(** What [modelCounts] holds under [name] once [n] requests for that
    model have been recorded. *)
Definition entry (name : string) (n : nat) : option Tally :=
  if bool_decide (n = 0%nat) then None
  else if bool_decide (name = "__proto__") then None
  else if bool_decide (name ∈ inherited_functions) then Some (Glued n)
  else Some (Count n).

(** How far a property has been counted up: the number, or the number of
    ["1"] glued on. *)
Definition weight (t : option Tally) : nat :=
  match t with
  | Some (Count n) => n
  | Some (Glued k) => k
  | None => 0
  end.

(** The calls made since the last [reset()] (all of them when there was
    none). *)
Definition since_reset (cs : list call) : list call :=
  foldl (λ acc c, match c with Reset => [] | _ => acc ++ [c] end) [] cs.

Definition is_success (c : call) : bool :=
  match c with
  | RecordResponse data => bool_decide (rs_status data = "success")
  | _ => false
  end.

Definition is_error (c : call) : bool :=
  match c with
  | RecordResponse data => bool_decide (rs_status data ≠ "success")
  | _ => false
  end.

Definition is_request_for (name : string) (c : call) : bool :=
  match c with
  | RecordRequest data _ => bool_decide (rd_model data = Some name)
  | _ => false
  end.

Definition tally (p : call → bool) (cs : list call) : nat :=
  length (filter (λ c, p c = true) cs).

(** Requests whose model names collide with [Object.prototype], and one
    whose name does not. *)
Definition prototype_named : list call :=
  (λ '(name, t),
     RecordRequest {| rd_id := name; rd_model := Some name;
                      rd_endpoint := "/v1/chat/completions" |} t)
  <$> [("toString", 1); ("toString", 2); ("__proto__", 3); ("gpt-4", 4)].

(** A history that overflows both buffers: 101 requests for one model,
    then 101 responses under pairwise distinct ids. *)
Definition nth_id (i : nat) : string := String (Ascii.ascii_of_nat i) "".

Definition overflow : list call :=
  ((λ i, RecordRequest {| rd_id := nth_id i; rd_model := Some "gpt-4";
                          rd_endpoint := "/v1/chat/completions" |}
                       (Z.of_nat i)) <$> seq 0 101)
  ++ ((λ i, RecordResponse {| rs_id := nth_id i; rs_duration := 7;
                              rs_status := "success";
                              rs_error := None |}) <$> seq 0 101).

End Metrics.

(** * OAuthManager (src/oauth-manager.js) *)
Module OAuth.

(** What [response.data] of the token endpoint reads as: its
    [access_token] and its [expires_in] (the lifetime in seconds), each
    possibly absent. Both are absent when the data is not an object that has
    them, as with the empty string axios hands back for an empty body:
    reading a property of it gives [undefined] and does not throw. *)
Record TokenResponse := {
  access_token : option string;
  expires_in : option Z
}.

(** How the awaited [axiosInstance.post(tokenUrl, ...)] settles: with a
    response or with a thrown error. The data of a response is [None] only
    when [response.data] is [undefined] or [null], the two values of which
    reading a property throws; any other data, the empty string of an empty
    body included, is [Some] of what its two properties read as. *)
Inductive PostResult :=
| Responded (data : option TokenResponse)
| Threw (error : JsError).

(** How the promise of an [async] method settles. *)
Inductive Settled :=
| Fulfilled (token : option string)
| Rejected (error : JsError).

(** The fields the methods read and write; [None] is [null]. *)
Record OAuthManager := {
  token : option string;
  tokenExpiry : option Z
}.

Definition constructor : OAuthManager :=
  {| token := None; tokenExpiry := None |}.

(** [this.refreshInterval = 15 * 60 * 1000]. *)
Definition refreshInterval : Z := 15 * 60 * 1000.

(** The error of reading [access_token] of [undefined], in V8's words
    (for [null] the message names [null] instead). *)
Definition TypeError : JsError :=
  {| err_message :=
       "Cannot read properties of undefined (reading 'access_token')";
     err_response := None |}.

(** [response.data.expires_in || 3600]. *)
Definition expiresIn (data : TokenResponse) : Z :=
  match expires_in data with
  | Some seconds => if bool_decide (seconds ≠ 0) then seconds else 3600
  | None => 3600
  end.

(** [fetchToken()], from the point where the awaited POST settles with
    [reply], at instant [now]. On a response the token and its expiry are
    stored and the token is returned; a thrown error is logged and thrown
    again, and nothing is stored. *)
Definition fetchToken (reply : PostResult) (now : Z) (s : OAuthManager)
  : OAuthManager * Settled :=
  match reply with
  | Responded (Some data) =>
      ({| token := access_token data;
          tokenExpiry := Some (now + expiresIn data * 1000) |},
       Fulfilled (access_token data))
  | Responded None => (s, Rejected TypeError)
  | Threw error => (s, Rejected error)
  end.

(** [this.token && Date.now() < this.tokenExpiry]; a [null] expiry
    compares as 0. *)
Definition hasValidToken (s : OAuthManager) (now : Z) : bool :=
  match token s with
  | Some t => truthy_string t && bool_decide (now < default 0 (tokenExpiry s))
  | None => false
  end.

(** [getNextRefreshTime()]: remaining whole seconds and the expiry. *)
Definition getNextRefreshTime (s : OAuthManager) (now : Z)
  : option (Z * Z) :=
  match tokenExpiry s with
  | Some expiry =>
      if bool_decide (expiry ≠ 0)
      then Some ((0 `max` (expiry - now)) `div` 1000, expiry)
      else None
  | None => None
  end.

(** ** The event loop around the manager

    JavaScript runs one task at a time and a task gives way only at an
    [await]. A task that called [fetchToken] is parked on its own POST
    until that POST settles. [inflight] lists the parked tasks, oldest
    first: a [getToken] caller, or the refresh timer's callback. [posts]
    counts the POSTs sent to the token endpoint, and [settled] collects
    what each [getToken] caller's promise settled with. *)
Inductive waiter :=
| Caller (c : nat)
| Timer.

Record Loop := {
  mgr : OAuthManager;
  inflight : list waiter;
  posts : nat;
  settled : list (nat * Settled)
}.

Definition idle (s : OAuthManager) : Loop :=
  {| mgr := s; inflight := []; posts := 0; settled := [] |}.

Inductive event :=
| GetToken (c : nat) (now : Z)          (* caller [c] calls getToken() *)
| RefreshTick                           (* the setInterval callback fires *)
| PostSettles (k : nat) (reply : PostResult) (now : Z).
                                        (* the POST of [inflight !! k] *)

(** [getToken()], called by [c]: the cached token at once, or a call of
    [fetchToken()] whose promise is handed to the caller. *)
Definition getToken (c : nat) (now : Z) (l : Loop) : Loop :=
  if negb (hasValidToken (mgr l) now)
  then {| mgr := mgr l; inflight := inflight l ++ [Caller c];
          posts := S (posts l); settled := settled l |}
  else {| mgr := mgr l; inflight := inflight l; posts := posts l;
          settled := settled l ++ [(c, Fulfilled (token (mgr l)))] |}.

(** The callback [startAutoRefresh] installs:
    [try { await this.fetchToken() } catch (error) { console.error(..) }]. *)
Definition refresh_tick (l : Loop) : Loop :=
  {| mgr := mgr l; inflight := inflight l ++ [Timer];
     posts := S (posts l); settled := settled l |}.

Definition post_settles (k : nat) (reply : PostResult) (now : Z) (l : Loop)
  : Loop :=
  match inflight l !! k with
  | None => l
  | Some w =>
      let '(s, outcome) := fetchToken reply now (mgr l) in
      {| mgr := s; inflight := delete k (inflight l); posts := posts l;
         settled :=
           match w with
           | Caller c => settled l ++ [(c, outcome)]
           | Timer => settled l
           end |}
  end.

Definition step (l : Loop) (e : event) : Loop :=
  match e with
  | GetToken c now => getToken c now l
  | RefreshTick => refresh_tick l
  | PostSettles k reply now => post_settles k reply now l
  end.

Definition run (l : Loop) (es : list event) : Loop := foldl step l es.

(** [await this.oauthManager.getToken()] as one caller with nobody else
    running sees it: the cached token, or the outcome of the POST it
    sent, which settles with [reply] at instant [later]. The last
    component tells whether a POST was sent. *)
Definition await_getToken (reply : PostResult) (now later : Z)
    (s : OAuthManager) : OAuthManager * Settled * bool :=
  if negb (hasValidToken s now)
  then (fetchToken reply later s, true)
  else (s, Fulfilled (token s), false).

(** *** Vocabulary for statements *)


(** The expiry as the specification words it: the fetch instant plus the
    lifetime the token endpoint reported, and nothing else. *)
Definition reported_expiry (now : Z) (data : TokenResponse) : option Z :=
  (λ seconds, now + seconds * 1000) <$> expires_in data.

(** Callers [c] calling [getToken()] at instants [now], one after the
    other with no POST settling in between. *)
Definition concurrent_calls (calls : list (nat * Z)) : list event :=
  (λ call, GetToken call.1 call.2) <$> calls.

(** *** Sample states *)

(** A manager whose credential ran out at instant 500. *)
Definition stale : OAuthManager :=
  {| token := Some "old"; tokenExpiry := Some 500 |}.

Definition fresh_reply : PostResult :=
  Responded (Some {| access_token := Some "new"; expires_in := Some 60 |}).

Definition refused : JsError :=
  {| err_message := "connect ECONNREFUSED"; err_response := None |}.

(** A credential good until instant 9000, with a scheduled refresh under
    way. *)
Definition serving : Loop :=
  {| mgr := {| token := Some "tok"; tokenExpiry := Some 9000 |};
     inflight := [Timer]; posts := 1; settled := [] |}.

End OAuth.

(** * ProxyHandler (proxy-handler.js) *)
Module Proxy.

(** The Express request: the [authorization] header, if any, and the
    parsed JSON body. *)
Record Request := {
  authorization : option string;
  body : gmap string value
}.

(** The generation defaults of the process: what
    [parseInt(process.env.MAX_TOKENS || '4096')],
    [parseFloat(process.env.TEMPERATURE || '0.7')] and so on evaluate
    to. *)
Record Defaults := {
  MAX_TOKENS : number;
  TEMPERATURE : number;
  TOP_P : number;
  FREQUENCY_PENALTY : number;
  PRESENCE_PENALTY : number
}.

(** The defaults when none of the five variables is set. *)
Definition builtin_defaults : Defaults :=
  {| MAX_TOKENS := Fin (Qc_of_Z 4096);
     TEMPERATURE := Fin (Qc_of_Z 7 / Qc_of_Z 10)%Qc;
     TOP_P := Fin (Qc_of_Z 1);
     FREQUENCY_PENALTY := Fin (Qc_of_Z 0);
     PRESENCE_PENALTY := Fin (Qc_of_Z 0) |}.

(** What is written with [res.json]: a relayed upstream body, or an
    envelope [{error: {message, type, code}}] built by the proxy. *)
Inductive Payload :=
| Relay (data : value)
| ErrorEnvelope (message type : string) (code : option Z).

(** The observable actions of a handler, logged in the order they are
    performed. *)
Inductive Effect :=
| TokenPost                                     (* POST to the token URL *)
| ApiPost (url : string) (payload : gmap string value)
          (bearer : option string) (stream : bool)
| RecordedRequest (data : Metrics.RequestData)   (* metrics.recordRequest *)
| RecordedResponse (data : Metrics.ResponseData) (* metrics.recordResponse *)
| SentJson (code : Z) (payload : Payload)        (* res.status(..).json(..) *)
| WroteHead (code : Z)                           (* res.writeHead *)
| Piped.                                         (* stream handlers set *)

(** What a handler works on: the collector and the credential manager it
    was configured with, the clock, and the Express response. *)
Record World := {
  metrics : Metrics.MetricsCollector;
  oauth : OAuth.OAuthManager;
  clock : Z;
  headersSent : bool;
  log : list Effect
}.

(** What the surroundings contribute to one run of a handler: the
    configuration, the identifier [generateRequestId()] draws, and how and
    when the two awaited POSTs settle. axios rejects on a status outside
    2xx, so [inr] of [api_reply] is a 2xx response. [api_reply] tells what
    the API answers, with the body as axios parses it when it reads it. On
    a POST that asks for a stream axios reads no body: the data of the
    response is the unread stream, and [error_stream] tells what
    [JSON.stringify] makes of that object when the status is an error:
    the properties it writes, or nothing when the stream refers back to
    itself (as the response of a plain HTTP exchange does, through its
    socket) and [JSON.stringify] throws. *)
Record Env := {
  baseUrl : string;
  defaults : Defaults;
  requestId : string;
  token_reply : OAuth.PostResult;
  token_latency : Z;
  api_reply : JsError + HttpResponse;
  api_latency : Z;
  error_stream : option (list (string * value))
}.

(** ** A state and exception monad for the handlers *)
Definition M (A : Type) : Type := World → (JsError + A) * World.

#[global] Instance M_ret : MRet M := λ A a w, (inr a, w).
#[global] Instance M_bind : MBind M := λ A B k m w,
  match m w with
  | (inl e, w') => (inl e, w')
  | (inr a, w') => k a w'
  end.

Definition throw {A} (e : JsError) : M A := λ w, (inl e, w).

(** [try { body } catch (error) { handler }]. *)
Definition try_catch {A} (body : M A) (handler : JsError → M A) : M A :=
  λ w, match body w with
       | (inl e, w') => handler e w'
       | (inr a, w') => (inr a, w')
       end.

Definition emit (e : Effect) : M () := λ w,
  (inr (), {| metrics := metrics w; oauth := oauth w; clock := clock w;
              headersSent := headersSent w; log := log w ++ [e] |}).

(** [Date.now()]. *)
Definition now : M Z := λ w, (inr (clock w), w).

(** Time passing while an [await] is pending. *)
Definition elapse (d : Z) : M () := λ w,
  (inr (), {| metrics := metrics w; oauth := oauth w; clock := clock w + d;
              headersSent := headersSent w; log := log w |}).

Definition get_headersSent : M bool := λ w, (inr (headersSent w), w).

Definition set_headersSent : M () := λ w,
  (inr (), {| metrics := metrics w; oauth := oauth w; clock := clock w;
              headersSent := true; log := log w |}).

(** [res.status(code).json(payload)]. *)
Definition res_json (code : Z) (payload : Payload) : M () :=
  emit (SentJson code payload);; set_headersSent.

(** [res.writeHead(code, headers)]. *)
Definition res_writeHead (code : Z) : M () :=
  emit (WroteHead code);; set_headersSent.

(** [await this.oauthManager.getToken()]. *)
Definition getToken (env : Env) : M (option string) := λ w,
  let '(s, outcome, posted) :=
    OAuth.await_getToken (token_reply env) (clock w)
                         (clock w + token_latency env) (oauth w) in
  let w' := {| metrics := metrics w; oauth := s;
               clock := if posted then clock w + token_latency env
                        else clock w;
               headersSent := headersSent w;
               log := if posted then log w ++ [TokenPost] else log w |} in
  match outcome with
  | OAuth.Fulfilled token => (inr token, w')
  | OAuth.Rejected error => (inl error, w')
  end.

(** [this.metrics.recordRequest(data)]. *)
Definition recordRequest (data : Metrics.RequestData) : M () := λ w,
  (inr (), {| metrics := Metrics.recordRequest data (clock w) (metrics w);
              oauth := oauth w; clock := clock w;
              headersSent := headersSent w;
              log := log w ++ [RecordedRequest data] |}).

(** [this.metrics.recordResponse(data)]. *)
Definition recordResponse (data : Metrics.ResponseData) : M () := λ w,
  (inr (), {| metrics := Metrics.recordResponse data (metrics w);
              oauth := oauth w; clock := clock w;
              headersSent := headersSent w;
              log := log w ++ [RecordedResponse data] |}).

(** The error of [JSON.stringify] on an object that refers back to
    itself; the message is the beginning of V8's. *)
Definition circular_structure : JsError :=
  {| err_message := "Converting circular structure to JSON";
     err_response := None |}.

(** The error handler of the response interceptor ([setupInterceptors]):
    it logs the error and rejects with it again. For an error that has a
    response with truthy data it logs
    [JSON.stringify(error.response.data, null, 2)]. The data of a POST that
    read the body is parsed JSON or text, which is written without fail. The
    data of a POST that asked for a stream is the stream, an object and so
    truthy: when [JSON.stringify] throws on it, the [TypeError] is what
    the POST rejects with, and the error of axios is lost. *)
Definition on_rejected (env : Env) (stream : bool) (error : JsError)
  : JsError :=
  match err_response error with
  | Some r =>
      if stream
      then match error_stream env with
           | Some fields =>
               {| err_message := err_message error;
                  err_response :=
                    Some {| resp_status := resp_status r;
                            resp_statusText := resp_statusText r;
                            resp_data := VObject fields |} |}
           | None => circular_structure
           end
      else error
  | None => error
  end.

(** [await this.axiosInstance.post(url, payload, {headers: ...})]; with
    [stream], [responseType: 'stream'] is among the options. (The data of
    a 2xx stream response is only ever piped, see [Relay]; the response is
    returned as [api_reply] has it.) *)
Definition post (env : Env) (url : string) (payload : gmap string value)
    (bearer : option string) (stream : bool) : M HttpResponse :=
  emit (ApiPost url payload bearer stream);;
  elapse (api_latency env);;
  match api_reply env with
  | inl error => throw (on_rejected env stream error)
  | inr response => mret response
  end.

(** ** The handlers *)

(** [!authHeader || !authHeader.startsWith('Bearer ')]. *)
Definition rejects_authorization (authHeader : option string) : bool :=
  match authHeader with
  | None => true
  | Some h => negb (truthy_string h) || negb (String.prefix "Bearer " h)
  end.

(** [a || b] on values. *)
Definition or_else (a b : value) : value := if truthy a then a else b.

(** [a !== undefined ? a : b]. *)
Definition unless_undefined (a b : value) : value :=
  match a with
  | VUndefined => b
  | _ => a
  end.

(** The merged body: [{...req.body, max_tokens: .., temperature: ..,
    top_p: .., frequency_penalty: .., presence_penalty: ..}]. *)
Definition with_defaults (d : Defaults) (b : gmap string value)
  : gmap string value :=
  <["presence_penalty" :=
      unless_undefined (prop b "presence_penalty") (VNum (PRESENCE_PENALTY d))]>
  (<["frequency_penalty" :=
      unless_undefined (prop b "frequency_penalty") (VNum (FREQUENCY_PENALTY d))]>
  (<["top_p" := unless_undefined (prop b "top_p") (VNum (TOP_P d))]>
  (<["temperature" :=
      unless_undefined (prop b "temperature") (VNum (TEMPERATURE d))]>
  (<["max_tokens" := or_else (prop b "max_tokens") (VNum (MAX_TOKENS d))]>
   b)))).

(** The model name handed to the collector: the [model] string of the
    body. A body without one, or with a model that is no string, is handed
    on as no model. *)
Definition model_name (v : value) : option string :=
  match v with
  | VStr s => Some s
  | _ => None
  end.

Definition proxy_metadata (requestId : string) : value :=
  VObject [("served_by", VStr "rbc-codex-proxy");
           ("request_id", VStr requestId)].

(** The error of [responseData._proxy = ...] on a string, a number or
    [true]: the class body is strict code, where creating a property on a
    primitive throws. The message is V8's up to the naming of the value. *)
Definition cannot_create_property : JsError :=
  {| err_message := "Cannot create property '_proxy' on a primitive value";
     err_response := None |}.

(** [handleRegularResponse]. After the assignment [responseData._proxy =
    ...] an object has the entry among its properties; an array has it as a
    property that [JSON.stringify] leaves out, so that the array is written
    as it came. *)
Definition handleRegularResponse (env : Env)
    (requestBody : gmap string value) (apiUrl : string)
    (token : option string) (requestId : string) : M () :=
  response ← post env apiUrl requestBody token false;
  let responseData := resp_data response in
  if truthy responseData && negb (truthy (own_prop responseData "_proxy"))
  then match responseData with
       | VObject fields =>
           res_json (resp_status response)
             (Relay (VObject (od_set "_proxy" (proxy_metadata requestId)
                                     fields)))
       | VArray _ => res_json (resp_status response) (Relay responseData)
       | _ => throw cannot_create_property
       end
  else res_json (resp_status response) (Relay responseData).

Definition handleStreamingResponse (env : Env)
    (requestBody : gmap string value) (apiUrl : string)
    (token : option string) (requestId : string) : M () :=
  _ ← post env apiUrl requestBody token true;
  res_writeHead 200;;
  emit Piped.

Definition formatErrorResponse (error : JsError) : Z * Payload :=
  match err_response error with
  | Some r =>
      (resp_status r,
       if truthy (resp_data r)
       then Relay (resp_data r)
       else ErrorEnvelope ("API error: " +:+ resp_statusText r)
                          "api_error" (Some (resp_status r)))
  | None =>
      (500,
       ErrorEnvelope (if truthy_string (err_message error)
                      then err_message error else "Internal proxy error")
                     "proxy_error" None)
  end.

Definition unauthorized : Payload :=
  ErrorEnvelope
    "Missing or invalid authorization header. Use any non-empty API key."
    "invalid_request_error" None.

(** The [catch (error)] block both handlers share. *)
Definition on_error (requestId : string) (startTime : Z) (error : JsError)
  : M () :=
  t ← now;
  recordResponse {| Metrics.rs_id := requestId;
                    Metrics.rs_duration := t - startTime;
                    Metrics.rs_status := "error";
                    Metrics.rs_error := Some (err_message error) |};;
  sent ← get_headersSent;
  if negb sent
  then let r := formatErrorResponse error in res_json r.1 r.2
  else mret ().

Definition handleChatCompletion (env : Env) (req : Request) : M () :=
  startTime ← now;
  let requestId := requestId env in
  try_catch
    (let authHeader := authorization req in
     if rejects_authorization authHeader
     then res_json 401 unauthorized
     else
       token ← getToken env;
       let requestBody := with_defaults (defaults env) (body req) in
       recordRequest
         {| Metrics.rd_id := requestId;
            Metrics.rd_model := model_name (prop requestBody "model");
            Metrics.rd_endpoint := "/v1/chat/completions" |};;
       let apiUrl := baseUrl env +:+ "/chat/completions" in
       (if truthy (prop requestBody "stream")
        then handleStreamingResponse env requestBody apiUrl token requestId
        else handleRegularResponse env requestBody apiUrl token requestId);;
       t ← now;
       recordResponse {| Metrics.rs_id := requestId;
                         Metrics.rs_duration := t - startTime;
                         Metrics.rs_status := "success";
                         Metrics.rs_error := None |})
    (on_error requestId startTime).

Definition handleCompletion (env : Env) (req : Request) : M () :=
  startTime ← now;
  let requestId := requestId env in
  try_catch
    (token ← getToken env;
     let requestBody := with_defaults (defaults env) (body req) in
     recordRequest
       {| Metrics.rd_id := requestId;
          Metrics.rd_model := model_name (prop requestBody "model");
          Metrics.rd_endpoint := "/v1/completions" |};;
     let apiUrl := baseUrl env +:+ "/completions" in
     response ← post env apiUrl requestBody token false;
     res_json (resp_status response) (Relay (resp_data response));;
     t ← now;
     recordResponse {| Metrics.rs_id := requestId;
                       Metrics.rs_duration := t - startTime;
                       Metrics.rs_status := "success";
                       Metrics.rs_error := None |})
    (on_error requestId startTime).

(** *** Vocabulary for statements *)

(** The ids of the request events, and of the response events, among
    logged effects, in logging order. *)
Definition request_events (es : list Effect) : list string :=
  omap (λ e, match e with
             | RecordedRequest d => Some (Metrics.rd_id d)
             | _ => None
             end) es.

Definition response_events (es : list Effect) : list string :=
  omap (λ e, match e with
             | RecordedResponse d => Some (Metrics.rs_id d)
             | _ => None
             end) es.

(** The POSTs a handler sent, to the token endpoint or to the API. *)
Definition is_upstream_call (e : Effect) : bool :=
  match e with
  | TokenPost | ApiPost _ _ _ _ => true
  | _ => false
  end.

Definition upstream_calls (es : list Effect) : list Effect :=
  filter (λ e, is_upstream_call e = true) es.

(** The status codes written with [res.json], in order. *)
Definition sent_codes (es : list Effect) : list Z :=
  omap (λ e, match e with
             | SentJson code _ => Some code
             | _ => None
             end) es.

(** The bodies posted to the API, in order. *)
Definition posted_bodies (es : list Effect) : list (gmap string value) :=
  omap (λ e, match e with
             | ApiPost _ payload _ _ => Some payload
             | _ => None
             end) es.

(** *** Sample surroundings *)

Definition completion_ok : HttpResponse :=
  {| resp_status := 200; resp_statusText := "OK";
     resp_data := VObject [("id", VStr "cmpl-1")] |}.

(** A gateway whose credential is valid until instant 900000. *)
Definition serving : World :=
  {| metrics := Metrics.constructor 0;
     oauth := {| OAuth.token := Some "tok";
                 OAuth.tokenExpiry := Some 900000 |};
     clock := 1000; headersSent := false; log := [] |}.

(** A gateway whose credential ran out at instant 500. *)
Definition lapsed : World :=
  {| metrics := Metrics.constructor 0;
     oauth := {| OAuth.token := Some "old";
                 OAuth.tokenExpiry := Some 500 |};
     clock := 1000; headersSent := false; log := [] |}.

(** The API answers 200 after 40 ms; the token endpoint refuses. *)
Definition env1 : Env :=
  {| baseUrl := "https://api.example/v1"; defaults := builtin_defaults;
     requestId := "req_1000_abc";
     token_reply := OAuth.Threw OAuth.refused;
     token_latency := 5; api_reply := inr completion_ok;
     api_latency := 40;
     error_stream := None |}.

Definition zero : value := VNum (Fin (Qc_of_Z 0)).

(** A chat request without an [Authorization] header. *)
Definition anonymous : Request :=
  {| authorization := None; body := {[ "model" := VStr "gpt-4" ]} |}.

(** A request whose header is the bearer scheme with an empty key. *)
Definition empty_key : Request :=
  {| authorization := Some "Bearer "; body := {[ "model" := VStr "gpt-4" ]} |}.

(** A request that sets [max_tokens] and [temperature] to 0. *)
Definition zeroed : Request :=
  {| authorization := Some "Bearer rbc-proxy";
     body := <["temperature" := zero]>
             (<["max_tokens" := zero]> {[ "model" := VStr "gpt-4" ]}) |}.

End Proxy.

(** * The stream relay of [handleStreamingResponse] (proxy-handler.js) *)
Module Relay.

(** What reaches the three handlers the streaming branch installs on the
    upstream body: [response.data.on('data' | 'end' | 'error', ...)]. *)
Inductive StreamEvent :=
| Data (chunk : string)
| End
| Error (message : string).

(** The caller's response while the relay runs: whether its head has gone
    out, the status set after the head (if any), the chunks written so far
    and whether it has been ended. *)
Record Res := {
  headersSent : bool;
  late_status : option Z;
  written : list string;
  ended : bool
}.


(** One event:
    - data:  [res.write(chunk)];
    - end:   [res.end()];
    - error: [if (!res.headersSent) res.status(500).end()]. *)
Definition on_event (res : Res) (e : StreamEvent) : Res :=
  match e with
  | Data chunk =>
      {| headersSent := headersSent res; late_status := late_status res;
         written := written res ++ [chunk]; ended := ended res |}
  | End =>
      {| headersSent := headersSent res; late_status := late_status res;
         written := written res; ended := true |}
  | Error _ =>
      if negb (headersSent res)
      then {| headersSent := true; late_status := Some 500;
              written := written res; ended := true |}
      else res
  end.

Definition relay (res : Res) (events : list StreamEvent) : Res :=
  foldl on_event res events.

End Relay.

(** * The life of the credential manager: [initialize], [startAutoRefresh],
      [destroy] (src/oauth-manager.js), and the start of the process
      (index.js) *)
Module Lifecycle.

(** The manager together with the interval timers of the process.
    [setInterval] hands out a handle never used before; [intervals] lists
    the handles that are still armed. [refreshTimer] is the field of that
    name ([None] is [null]; every handle is truthy). *)
Record Manager := {
  state : OAuth.OAuthManager;
  refreshTimer : option nat;
  intervals : list nat;
  next_handle : nat
}.

Definition constructor : Manager :=
  {| state := OAuth.constructor; refreshTimer := None;
     intervals := []; next_handle := 0 |}.

(** [clearInterval(handle)]. *)
Definition clearInterval (handle : nat) (armed : list nat) : list nat :=
  filter (λ h, h ≠ handle) armed.

(** [startAutoRefresh()]: clear the timer on record, if any, then arm a
    new one and put it on record. *)
Definition startAutoRefresh (m : Manager) : Manager :=
  let armed :=
    match refreshTimer m with
    | Some old => clearInterval old (intervals m)
    | None => intervals m
    end in
  {| state := state m;
     refreshTimer := Some (next_handle m);
     intervals := armed ++ [next_handle m];
     next_handle := S (next_handle m) |}.

(** [destroy()]. *)
Definition destroy (m : Manager) : Manager :=
  match refreshTimer m with
  | Some old =>
      {| state := state m; refreshTimer := None;
         intervals := clearInterval old (intervals m);
         next_handle := next_handle m |}
  | None => m
  end.

(** [initialize()], the awaited POST settling with [reply] at [now]:
    [await this.fetchToken(); this.startAutoRefresh()]. The result is the
    error the promise rejects with, if it does. *)
Definition initialize (reply : OAuth.PostResult) (now : Z) (m : Manager)
  : Manager * option JsError :=
  match OAuth.fetchToken reply now (state m) with
  | (s, OAuth.Fulfilled _) =>
      (startAutoRefresh {| state := s; refreshTimer := refreshTimer m;
                           intervals := intervals m;
                           next_handle := next_handle m |}, None)
  | (s, OAuth.Rejected error) =>
      ({| state := s; refreshTimer := refreshTimer m;
          intervals := intervals m; next_handle := next_handle m |},
       Some error)
  end.

(** The fetch of one firing of the refresh timer, from start to
    settlement: the callback catches whatever [fetchToken] throws. *)
Definition refresh (reply : OAuth.PostResult) (now : Z) (m : Manager)
  : Manager :=
  {| state := (OAuth.fetchToken reply now (state m)).1;
     refreshTimer := refreshTimer m; intervals := intervals m;
     next_handle := next_handle m |}.

Inductive call :=
| Initialize (reply : OAuth.PostResult) (now : Z)
| StartAutoRefresh
| Refresh (reply : OAuth.PostResult) (now : Z)
| Destroy.

Definition step (m : Manager) (c : call) : Manager :=
  match c with
  | Initialize reply now => (initialize reply now m).1
  | StartAutoRefresh => startAutoRefresh m
  | Refresh reply now => refresh reply now m
  | Destroy => destroy m
  end.

Definition run (m : Manager) (cs : list call) : Manager := foldl step m cs.

(** ** Starting the process (index.js) *)






(** *** Vocabulary for statements *)

(** At most the timer on record is armed, and handles are never reused. *)
Definition timers_ok (m : Manager) : Prop :=
  intervals m = option_list (refreshTimer m) ∧
  ∀ h, h ∈ intervals m → (h < next_handle m)%nat.

End Lifecycle.

(** * DashboardServer (dashboard-server.js) *)
Module Dashboard.

(** [ws.readyState]. *)
Inductive ReadyState := CONNECTING | OPEN | CLOSING | CLOSED.

#[global] Instance ReadyState_eq_dec : EqDecision ReadyState.
Proof. solve_decision. Defined.

(** A socket of [wss.clients]. *)
Record Client := {
  cid : nat;
  readyState : ReadyState
}.

(** The object [getUpdateData] builds. [system] is what
    [process.memoryUsage()] and [process.uptime()] report, taken as
    given. *)
Record UpdateData := {
  timestamp : Z;
  metrics : Metrics.Snapshot;
  hasToken : bool;
  nextRefresh : option (Z * Z);
  system : value
}.

(** What the server sends on a socket. *)
Inductive Message :=
| Update (data : UpdateData)
| Pong.

(** What arrives on a socket, after [JSON.parse]: text that does not
    parse to an object, or an object with its [type] property (absent or
    any string). *)
Inductive Inbound :=
| Unparsable
| Typed (type : option string).

(** The server and what it holds on to: the collector and the manager it
    was configured with, the socket server ([None] is [null]) with its
    clients, and everything sent so far, oldest first, each with the socket
    it went to. *)
Record Server := {
  collector : Metrics.MetricsCollector;
  oauth : OAuth.OAuthManager;
  wss : option (list Client);
  sent : list (nat * Message)
}.

Definition getUpdateData (now : Z) (sys : value) (s : Server) : UpdateData :=
  {| timestamp := now;
     metrics := Metrics.getMetrics (collector s) now;
     hasToken := OAuth.hasValidToken (oauth s) now;
     nextRefresh := OAuth.getNextRefreshTime (oauth s) now;
     system := sys |}.

Definition send (to : nat) (msg : Message) (s : Server) : Server :=
  {| collector := collector s; oauth := oauth s; wss := wss s;
     sent := sent s ++ [(to, msg)] |}.

(** [sendUpdate(ws)]. *)
Definition sendUpdate (now : Z) (sys : value) (ws : Client) (s : Server)
  : Server :=
  if bool_decide (readyState ws = OPEN)
  then send (cid ws) (Update (getUpdateData now sys s)) s
  else s.

(** [broadcastUpdate()]. *)
Definition broadcastUpdate (now : Z) (sys : value) (s : Server) : Server :=
  match wss s with
  | None => s
  | Some clients =>
      let message := Update (getUpdateData now sys s) in
      foldl (λ acc client,
               if bool_decide (readyState client = OPEN)
               then send (cid client) message acc
               else acc)
            s clients
  end.

(** The ['message'] handler of a connection. *)
Definition on_message (now : Z) (sys : value) (ws : Client) (msg : Inbound)
    (s : Server) : Server :=
  match msg with
  | Unparsable => s
  | Typed type =>
      if bool_decide (type = Some "ping")
      then send (cid ws) Pong s
      else if bool_decide (type = Some "reset-metrics")
      then broadcastUpdate now sys
             {| collector := Metrics.reset (collector s); oauth := oauth s;
                wss := wss s; sent := sent s |}
      else s
  end.

(** [stop()]. *)
Definition stop (s : Server) : Server :=
  {| collector := collector s; oauth := oauth s; wss := None;
     sent := sent s |}.

(** The ['upgrade'] handler: only [/ws] is handed to the socket server,
    any other socket is destroyed. *)
Definition accepts_upgrade (url : string) : bool := bool_decide (url = "/ws").

(** *** Vocabulary for statements *)

(** The sockets of [clients] that are open, in the order of iteration. *)
Definition open_sockets (clients : list Client) : list nat :=
  cid <$> filter (λ c, readyState c = OPEN) clients.

(** *** A sample server: three sockets, the second one closing *)
Definition two_sockets : Server :=
  {| collector := Metrics.run (Metrics.constructor 0) Metrics.overflow;
     oauth := OAuth.stale;
     wss := Some [ {| cid := 1; readyState := OPEN |};
                   {| cid := 2; readyState := CLOSING |};
                   {| cid := 3; readyState := OPEN |} ];
     sent := [] |}.

End Dashboard.

(** * More vocabulary for statements *)

(** ** About histories of the collector *)
Module MetricsHistory.
Import Metrics.

(** The durations a history reported with its responses, in order. *)
Definition durations (cs : list call) : list Z :=
  omap (λ c, match c with
             | RecordResponse data => Some (rs_duration data)
             | _ => None
             end) cs.



Definition sumZ (l : list Z) : Z := foldr Z.add 0 l.

End MetricsHistory.

(** ** About the log of a handler *)
Module ProxyLog.
Import Proxy.

(** The status codes of the response heads written, by [res.json] or by
    [res.writeHead], in order. *)
Definition head_codes (es : list Effect) : list Z :=
  omap (λ e, match e with
             | SentJson code _ | WroteHead code => Some code
             | _ => None
             end) es.

(** The calls made to the API, in order: address, body, bearer token and
    whether a stream was asked for. *)
Definition api_calls (es : list Effect)
  : list (string * gmap string value * option string * bool) :=
  omap (λ e, match e with
             | ApiPost url payload bearer stream =>
                 Some (url, payload, bearer, stream)
             | _ => None
             end) es.

(** The bodies written with [res.json], in order, each with its status. *)
Definition sent_bodies (es : list Effect) : list (Z * Payload) :=
  omap (λ e, match e with
             | SentJson code payload => Some (code, payload)
             | _ => None
             end) es.

(** The outcomes recorded, in order: the status and the error detail of
    each ResponseEvent. *)
Definition recorded_outcomes (es : list Effect)
  : list (string * option string) :=
  omap (λ e, match e with
             | RecordedResponse data =>
                 Some (Metrics.rs_status data, Metrics.rs_error data)
             | _ => None
             end) es.


(** A truthy value that is no object: a non-empty text, a number other
    than 0, [true]. *)
Definition truthy_primitive (v : value) : bool :=
  match v with
  | VBool _ | VNum _ | VStr _ => truthy v
  | _ => false
  end.

(** An API answer with an error status and a body. *)
Definition bad_gateway : JsError :=
  {| err_message := "Request failed with status code 502";
     err_response :=
       Some {| resp_status := 502; resp_statusText := "Bad Gateway";
               resp_data := VObject [("error", VStr "upstream down")] |} |}.

(** A chat request that asks for a stream. *)
Definition streamed : Request :=
  {| authorization := Some "Bearer rbc-proxy";
     body := <["stream" := VBool true]> {[ "model" := VStr "gpt-4" ]} |}.

(** The API answers 200 with a body that is plain text. *)
Definition text_answer : Env :=
  {| baseUrl := baseUrl env1; defaults := defaults env1;
     requestId := requestId env1; token_reply := token_reply env1;
     token_latency := 5;
     api_reply := inr {| resp_status := 200; resp_statusText := "OK";
                         resp_data := VStr "pong" |};
     api_latency := 40;
     error_stream := None |}.

(** The API answers 502 with a body. *)
Definition gateway_down : Env :=
  {| baseUrl := baseUrl env1; defaults := defaults env1;
     requestId := requestId env1; token_reply := token_reply env1;
     token_latency := 5; api_reply := inl bad_gateway;
     api_latency := 40;
     error_stream := None |}.


End ProxyLog.

(** * Facts about ordered dictionaries and slices *)
Section OrderedDictFacts.
Context {K V : Type} `{EqDecision K}.

Lemma od_keys_set_elem (k : K) (v : V) (m : list (K * V)) :
  k ∈ od_keys m → od_keys (od_set k v m) = od_keys m.
Proof.
  unfold od_keys. induction m as [|[k' v'] m IH]; simpl.
  - intros H. by apply elem_of_nil in H.
  - intros H. case_decide as E; simpl; [by subst|].
    f_equal. apply IH. apply elem_of_cons in H as [H|H]; [congruence|done].
Qed.

Lemma od_set_fresh (k : K) (v : V) (m : list (K * V)) :
  k ∉ od_keys m → od_set k v m = m ++ [(k, v)].
Proof.
  unfold od_keys. induction m as [|[k' v'] m IH]; simpl; [done|].
  intros H. apply not_elem_of_cons in H as [H1 H2].
  case_decide; [congruence|]. by rewrite IH.
Qed.

Lemma od_set_length_le (k : K) (v : V) (m : list (K * V)) :
  (length (od_set k v m) ≤ S (length m))%nat.
Proof.
  induction m as [|[k' v'] m IH]; simpl; [lia|].
  case_decide; simpl; lia.
Qed.

Lemma od_set_NoDup (k : K) (v : V) (m : list (K * V)) :
  NoDup (od_keys m) → NoDup (od_keys (od_set k v m)).
Proof.
  intros H. destruct (decide (k ∈ od_keys m)) as [Hin|Hin].
  - by rewrite od_keys_set_elem.
  - rewrite od_set_fresh by done. unfold od_keys in *.
    rewrite fmap_app. simpl. apply NoDup_app. split; [done|].
    split; [|apply NoDup_singleton].
    intros x Hx Hx'. apply list_elem_of_singleton in Hx'. by subst.
Qed.

Lemma od_delete_head (k : K) (v : V) (m : list (K * V)) :
  k ∉ od_keys m → od_delete k ((k, v) :: m) = m.
Proof.
  unfold od_delete, od_keys. intros H.
  rewrite filter_cons_False by (simpl; tauto).
  induction m as [|[k' v'] m IH]; [done|].
  rewrite fmap_cons in H. apply not_elem_of_cons in H as [H1 H2].
  rewrite filter_cons_True by (simpl; intros ->; by apply H1).
  f_equal. by apply IH.
Qed.

Lemma od_delete_head_length (k : K) (v : V) (m : list (K * V)) :
  (length (od_delete k ((k, v) :: m)) ≤ length m)%nat.
Proof.
  unfold od_delete. rewrite filter_cons_False by (simpl; tauto).
  apply length_filter.
Qed.

Lemma od_delete_NoDup (k : K) (m : list (K * V)) :
  NoDup (od_keys m) → NoDup (od_keys (od_delete k m)).
Proof.
  unfold od_keys, od_delete. induction m as [|[k' v'] m IH]; [done|].
  rewrite fmap_cons. intros H. apply NoDup_cons in H as [H1 H2].
  destruct (decide (k' = k)) as [->|E].
  - rewrite filter_cons_False by (simpl; tauto). by apply IH.
  - rewrite filter_cons_True by done. rewrite fmap_cons. simpl.
    apply NoDup_cons. split; [|by apply IH].
    intros Hin. apply H1. apply list_elem_of_fmap in Hin as [[a b] [-> Hin]].
    apply list_elem_of_filter in Hin as [_ Hin].
    apply list_elem_of_fmap. by exists (a, b).
Qed.
End OrderedDictFacts.

Lemma slice_last_length {A} n (l : list A) :
  (length (slice_last n l) ≤ n)%nat.
Proof. unfold slice_last. rewrite length_drop. lia. Qed.

Lemma slice_last_short {A} n (l : list A) :
  (length l ≤ n)%nat → slice_last n l = l.
Proof.
  intros H. unfold slice_last.
  by replace (length l - n)%nat with 0%nat by lia.
Qed.


Lemma od_get_set {K V : Type} `{EqDecision K} (k : K) (v : V)
    (m : list (K * V)) :
  od_get k (od_set k v m) = Some v.
Proof.
  induction m as [|[k' v'] m IH]; simpl.
  - by rewrite decide_True.
  - case_decide as E; simpl.
    + by rewrite decide_True.
    + by rewrite decide_False.
Qed.

Lemma od_get_set_ne {K V : Type} `{EqDecision K} (k k' : K) (v : V)
    (m : list (K * V)) :
  k' ≠ k → od_get k' (od_set k v m) = od_get k' m.
Proof.
  intros Hne. induction m as [|[k0 v0] m IH]; simpl.
  - by rewrite decide_False.
  - destruct (decide (k0 = k)) as [->|E]; simpl.
    + by rewrite !decide_False.
    + by rewrite IH.
Qed.

(** * MetricsCollector: bounded buffers *)
Section MetricsBuffers.
Import Metrics.

Lemma evict_oldest_length (rs : list (string * ResponseData)) :
  rs ≠ [] → (S (length (evict_oldest rs)) ≤ length rs)%nat.
Proof.
  destruct rs as [|[k v] rs]; [done|]. intros _. simpl.
  pose proof (od_delete_head_length k v rs). lia.
Qed.

Lemma evict_oldest_tail (rs : list (string * ResponseData)) :
  NoDup (od_keys rs) → evict_oldest rs = tail rs.
Proof.
  destruct rs as [|[k v] rs]; [done|]. unfold od_keys. simpl.
  intros H. apply NoDup_cons in H as [H _].
  by apply od_delete_head.
Qed.

Lemma evict_oldest_NoDup (rs : list (string * ResponseData)) :
  NoDup (od_keys rs) → NoDup (od_keys (evict_oldest rs)).
Proof.
  destruct rs as [|[k v] rs]; [done|].
  exact (od_delete_NoDup k ((k, v) :: rs)).
Qed.

Lemma constructor_ok now : buffers_ok (constructor now).
Proof.
  unfold buffers_ok, maxStoredRequests. simpl.
  repeat split; try lia. apply NoDup_nil_2.
Qed.

Lemma recordRequest_ok data now m :
  buffers_ok m → buffers_ok (recordRequest data now m).
Proof.
  intros (Hq & Hr & Hn). unfold buffers_ok. simpl.
  repeat split; [|done..]. case_bool_decide as E.
  - apply slice_last_length.
  - lia.
Qed.

Lemma recordResponse_ok data m :
  buffers_ok m → buffers_ok (recordResponse data m).
Proof.
  intros (Hq & Hr & Hn). unfold buffers_ok. simpl.
  pose proof (od_set_length_le (rs_id data) data (responses m)) as Hle.
  pose proof (od_set_NoDup (rs_id data) data (responses m) Hn) as Hnd.
  split; [done|]. case_bool_decide as E.
  - split; [|by apply evict_oldest_NoDup].
    assert (od_set (rs_id data) data (responses m) ≠ []) as Hne.
    { intros Heq. rewrite Heq in E. simpl in E. unfold maxStoredRequests in E. lia. }
    pose proof (evict_oldest_length _ Hne). lia.
  - split; [lia|done].
Qed.

Lemma reset_ok m : buffers_ok (reset m).
Proof.
  unfold buffers_ok, maxStoredRequests. simpl.
  repeat split; try lia. apply NoDup_nil_2.
Qed.

Lemma step_ok m c : buffers_ok m → buffers_ok (step m c).
Proof.
  destruct c; simpl; auto using recordRequest_ok, recordResponse_ok, reset_ok.
Qed.

Lemma run_ok m cs : buffers_ok m → buffers_ok (run m cs).
Proof.
  revert m. induction cs as [|c cs IH]; intros m Hm; [done|].
  simpl. apply IH. by apply step_ok.
Qed.

Lemma slice_last_full {A} (x y : A) (l : list A) n :
  length (x :: l) = n → slice_last n ((x :: l) ++ [y]) = l ++ [y].
Proof.
  intros H. unfold slice_last. rewrite length_app. simpl in *.
  by replace (S (length l + 1) - n)%nat with 1%nat by lia.
Qed.

(** C6. Along every history of [recordRequest], [recordResponse] and
    [reset] calls on a fresh collector, the stored request sequence and
    the stored response mapping hold at most 100 entries each. Eviction is
    by insertion order: recording into a full request sequence drops its
    first (oldest) element and appends the new one; recording a response
    under a new id into a full mapping drops the entry whose key was
    inserted first and appends the new one; and recording under an id that
    is already stored replaces the value in place, moving no key and
    evicting nothing. Below capacity nothing is dropped. *)
Theorem buffers_bounded_fifo (start : Z) (cs : list call) :
  let m := run (constructor start) cs in
  (length (requests m) ≤ 100)%nat ∧
  (length (responses m) ≤ 100)%nat ∧
  (∀ data now,
     length (requests m) = 100%nat →
     requests (recordRequest data now m)
     = tail (requests m) ++ [stamp data now]) ∧
  (∀ data now,
     (length (requests m) < 100)%nat →
     requests (recordRequest data now m) = requests m ++ [stamp data now]) ∧
  (∀ data,
     length (responses m) = 100%nat →
     rs_id data ∉ od_keys (responses m) →
     responses (recordResponse data m)
     = tail (responses m) ++ [(rs_id data, data)]) ∧
  (∀ data,
     (length (responses m) < 100)%nat →
     rs_id data ∉ od_keys (responses m) →
     responses (recordResponse data m)
     = responses m ++ [(rs_id data, data)]) ∧
  (∀ data,
     rs_id data ∈ od_keys (responses m) →
     od_keys (responses (recordResponse data m)) = od_keys (responses m) ∧
     od_get (rs_id data) (responses (recordResponse data m)) = Some data).
Proof.
  intros m.
  destruct (run_ok (constructor start) cs (constructor_ok start))
    as (Hq & Hr & Hn).
  fold m in Hq, Hr, Hn. unfold maxStoredRequests in *.
  split; [done|]. split; [done|].
  split; [|split; [|split; [|split; [|intros data Hin; split]]]].
  - intros data now Hlen. simpl.
    rewrite bool_decide_eq_true_2
      by (rewrite length_app; simpl; unfold maxStoredRequests; lia).
    destruct (requests m) as [|x l] eqn:E; [done|].
    by apply slice_last_full.
  - intros data now Hlen. simpl.
    rewrite bool_decide_eq_false_2
      by (rewrite length_app; simpl; unfold maxStoredRequests; lia).
    done.
  - intros data Hlen Hfresh. simpl.
    rewrite od_set_fresh by done.
    rewrite bool_decide_eq_true_2
      by (rewrite length_app; simpl; unfold maxStoredRequests; lia).
    rewrite evict_oldest_tail.
    + by destruct (responses m).
    + rewrite <- (od_set_fresh (rs_id data) data) by done.
      by apply od_set_NoDup.
  - intros data Hlen Hfresh. simpl.
    rewrite od_set_fresh by done.
    rewrite bool_decide_eq_false_2
      by (rewrite length_app; simpl; unfold maxStoredRequests; lia).
    done.
  - simpl.
    assert (length (od_set (rs_id data) data (responses m))
            = length (responses m)) as Hlen.
    { rewrite <- !(length_fmap fst).
      change (length (od_keys (od_set (rs_id data) data (responses m)))
              = length (od_keys (responses m))).
      by rewrite od_keys_set_elem. }
    rewrite bool_decide_eq_false_2
      by (rewrite Hlen; unfold maxStoredRequests; lia).
    by apply od_keys_set_elem.
  - simpl.
    assert (length (od_set (rs_id data) data (responses m))
            = length (responses m)) as Hlen.
    { rewrite <- !(length_fmap fst).
      change (length (od_keys (od_set (rs_id data) data (responses m)))
              = length (od_keys (responses m))).
      by rewrite od_keys_set_elem. }
    rewrite bool_decide_eq_false_2
      by (rewrite Hlen; unfold maxStoredRequests; lia).
    apply od_get_set.
Qed.
(** The eviction rule at work on a full collector: 101 requests recorded,
    the 102nd pushes out the oldest of the 100 still stored. *)
Lemma buffers_bounded_fifo_witness :
  let m := run (constructor 0) overflow in
  let data := {| rd_id := "next"; rd_model := Some "gpt-4";
                 rd_endpoint := "/v1/completions" |} in
  length (requests m) = 100%nat ∧
  requests (recordRequest data 7 m) = tail (requests m) ++ [stamp data 7].
Proof.
  intros m data.
  assert (length (requests m) = 100%nat) as Hfull by (by vm_compute).
  split; [exact Hfull|].
  destruct (buffers_bounded_fifo 0 overflow) as (_ & _ & Hevict & _).
  exact (Hevict data 7 Hfull).
Defined.
End MetricsBuffers.

(** * MetricsCollector: reset and the cumulative counters *)
Section MetricsCounters.
Import Metrics.

(** C9. [reset()] empties the stored requests, the response mapping and
    the per-model counts, zeroes the success, error and duration counters,
    and keeps [startTime]; the uptime a snapshot reports is the same
    before and after a reset. *)
Theorem reset_clears_keeps_start (m : MetricsCollector) (now : Z) :
  requests (reset m) = [] ∧
  responses (reset m) = [] ∧
  modelCounts (reset m) = ∅ ∧
  successCount (reset m) = 0%nat ∧
  errorCount (reset m) = 0%nat ∧
  totalDuration (reset m) = 0 ∧
  startTime (reset m) = startTime m ∧
  uptime (getMetrics (reset m) now) = uptime (getMetrics m now) ∧
  uptime (getMetrics (reset m) now) = (now - startTime m) `div` 1000.
Proof. by repeat split. Qed.

Lemma tally_snoc p cs c :
  tally p (cs ++ [c]) = (tally p cs + (if p c then 1 else 0))%nat.
Proof.
  unfold tally. rewrite filter_app, length_app. f_equal.
  destruct (p c) eqn:E.
  - by rewrite filter_cons_True.
  - rewrite filter_cons_False; [done|]. by rewrite E.
Qed.

Lemma run_snoc m cs c : run m (cs ++ [c]) = step (run m cs) c.
Proof. unfold run. by rewrite foldl_app. Qed.

Lemma since_reset_snoc cs c :
  since_reset (cs ++ [c])
  = match c with Reset => [] | _ => since_reset cs ++ [c] end.
Proof. unfold since_reset. by rewrite foldl_app. Qed.

(** One [recordRequest] moves the property of its own model one step on
    and leaves every other property alone. *)
Lemma bump_model_lookup model name n mc :
  name ≠ "" →
  mc !! name = entry name n →
  bump_model model mc !! name
  = entry name (n + (if bool_decide (model = Some name) then 1 else 0)).
Proof.
  intros Hne Hmc. destruct model as [other|]; simpl.
  - destruct (decide (other = name)) as [->|Hother].
    + rewrite (bool_decide_eq_true_2 (Some name = Some name)) by done.
      assert (truthy_string name = true) as ->
        by (unfold truthy_string; by apply bool_decide_eq_true_2).
      unfold entry in *.
      rewrite (bool_decide_eq_false_2 (n + 1 = 0)%nat) by lia.
      replace (n + 1)%nat with (S n) by lia.
      destruct (bool_decide (n = 0%nat)) eqn:En,
        (bool_decide (name = "__proto__")) eqn:Ep,
        (bool_decide (name ∈ inherited_functions)) eqn:Ei;
        rewrite Hmc; rewrite ?Ep, ?Ei; rewrite ?lookup_insert_eq, ?Hmc;
        try done; apply bool_decide_eq_true in En; by subst n.
    + rewrite (bool_decide_eq_false_2 (Some other = Some name)) by congruence.
      rewrite Nat.add_0_r, <- Hmc.
      destruct (truthy_string other); [|done].
      destruct (mc !! other) as [[k|k]|];
        repeat case_bool_decide; by rewrite ?lookup_insert_ne.
  - by rewrite Nat.add_0_r.
Qed.

Lemma counters_history (start : Z) (cs : list call) :
  let m := run (constructor start) cs in
  let hist := since_reset cs in
  successCount m = tally is_success hist ∧
  errorCount m = tally is_error hist ∧
  (∀ name, name ≠ "" →
     modelCounts m !! name = entry name (tally (is_request_for name) hist)).
Proof.
  induction cs as [|c cs IH] using rev_ind; [done|].
  simpl in *. rewrite run_snoc, since_reset_snoc.
  destruct IH as (IHs & IHe & IHm).
  destruct c as [data now|data|]; simpl.
  - rewrite !tally_snoc. simpl. repeat split; [lia..|].
    intros name Hne. rewrite tally_snoc. simpl.
    by apply bump_model_lookup, IHm.
  - rewrite !tally_snoc. simpl.
    repeat split.
    + case_bool_decide; lia.
    + case_bool_decide as E.
      * rewrite bool_decide_eq_false_2 by tauto. lia.
      * rewrite bool_decide_eq_true_2 by done. lia.
    + intros name Hne. rewrite tally_snoc. simpl.
      rewrite IHm by done. by rewrite Nat.add_0_r.
  - done.
Qed.

Lemma bump_model_weight model name mc :
  (weight (mc !! name) ≤ weight (bump_model model mc !! name))%nat.
Proof.
  destruct model as [other|]; simpl; [|done].
  destruct (truthy_string other); [|done].
  destruct (decide (other = name)) as [->|Hne].
  - destruct (mc !! name) as [[k|k]|] eqn:E;
      repeat case_bool_decide; rewrite ?lookup_insert_eq, ?E; simpl; lia.
  - destruct (mc !! other) as [[k|k]|];
      repeat case_bool_decide; by rewrite ?lookup_insert_ne.
Qed.

(** The total, success and error counts of [getMetrics] and [getSummary]
    count the calls made since the collector was built or last reset,
    whatever has been evicted meanwhile, and the property of a model in
    [modelUsage] is [entry] of the number of its requests: that number
    itself for a model name [Object.prototype] does not know. No
    [recordRequest] or [recordResponse] lowers any of them, and they can
    exceed what the bounded buffers still hold (101 recorded, 100
    stored). *)
Lemma counters_cumulative (start now : Z) (cs : list call) :
  let m := run (constructor start) cs in
  let hist := since_reset cs in
  (totalRequests (getMetrics m now)
     = (tally is_success hist + tally is_error hist)%nat ∧
   snap_successCount (getMetrics m now) = tally is_success hist ∧
   snap_errorCount (getMetrics m now) = tally is_error hist ∧
   total (getSummary m) = (tally is_success hist + tally is_error hist)%nat ∧
   success (getSummary m) = tally is_success hist ∧
   errors (getSummary m) = tally is_error hist ∧
   (∀ name, name ≠ "" →
      modelUsage (getMetrics m now) !! name
      = entry name (tally (is_request_for name) hist)) ∧
   (∀ name, name ≠ "" → name ≠ "__proto__" → name ∉ inherited_functions →
      (0 < tally (is_request_for name) hist)%nat →
      modelUsage (getMetrics m now) !! name
      = Some (Count (tally (is_request_for name) hist)))) ∧
  (∀ data t name,
     (weight (modelCounts m !! name)
      ≤ weight (modelCounts (recordRequest data t m) !! name))%nat ∧
     successCount (recordRequest data t m) = successCount m ∧
     errorCount (recordRequest data t m) = errorCount m) ∧
  (∀ data,
     (successCount m ≤ successCount (recordResponse data m))%nat ∧
     (errorCount m ≤ errorCount (recordResponse data m))%nat ∧
     (successCount (recordResponse data m)
      + errorCount (recordResponse data m)
      = S (successCount m + errorCount m))%nat ∧
     modelCounts (recordResponse data m) = modelCounts m) ∧
  (let full := run (constructor start) overflow in
   total (getSummary full) = 101%nat ∧
   length (responses full) = 100%nat ∧
   modelUsage (getMetrics full now) !! "gpt-4" = Some (Count 101) ∧
   length (requests full) = 100%nat).
Proof.
  intros m hist.
  destruct (counters_history start cs) as (Hs & He & Hm).
  fold m hist in Hs, He, Hm.
  split; [|split; [|split]].
  - simpl. rewrite Hs, He. do 6 (split; [done|]). split; [done|].
    intros name Hne Hproto Hinh Hpos. rewrite Hm by done. unfold entry.
    by rewrite !bool_decide_eq_false_2 by (done || lia).
  - intros data t name. simpl. repeat split. apply bump_model_weight.
  - intros data. simpl. case_bool_decide; repeat split; lia.
  - by vm_compute.
Qed.

(** C10 at its failing inputs. [modelCounts] is a plain object, while the
    response mapping beside it is a [Map]. Two requests for a model named
    [toString] leave under that name not the count 2 but a string (the
    text of the inherited function with ["11"] glued on), and a request for
    a model named [__proto__] leaves no property at all, so the summary
    counts two models where three were used; an ordinary model name is
    counted as a number. *)
Theorem prototype_named_models_miscounted :
  let m := run (constructor 0) prototype_named in
  tally (is_request_for "toString") (since_reset prototype_named) = 2%nat ∧
  modelUsage (getMetrics m 9) !! "toString" = Some (Glued 2) ∧
  modelUsage (getMetrics m 9) !! "toString" ≠ Some (Count 2) ∧
  tally (is_request_for "__proto__") (since_reset prototype_named) = 1%nat ∧
  modelUsage (getMetrics m 9) !! "__proto__" = None ∧
  modelUsage (getMetrics m 9) !! "gpt-4" = Some (Count 1) ∧
  models (getSummary m) = 2%nat ∧
  length (requests m) = 4%nat.
Proof. by vm_compute. Qed.

Lemma slice_last_snoc {A} (n : nat) (l : list A) (x : A) :
  (0 < n)%nat →
  slice_last n (slice_last n l ++ [x]) = slice_last n (l ++ [x]).
Proof.
  intros Hn. unfold slice_last. rewrite !length_app, length_drop. simpl.
  destruct (decide (length l ≤ n)%nat) as [Hle|Hgt].
  - replace (length l - n)%nat with 0%nat by lia. simpl.
    by rewrite Nat.sub_0_r.
  - replace (length l - (length l - n) + 1 - n)%nat with 1%nat by lia.
    replace (length l + 1 - n)%nat with (S (length l - n)) by lia.
    rewrite !drop_app_le by (rewrite ?length_drop; lia).
    f_equal. rewrite drop_drop. f_equal. lia.
Qed.

(** The stored requests are the latest 100 of those recorded since the
    last reset, in recording order. *)
Lemma requests_are_latest (start : Z) (cs : list call) :
  requests (run (constructor start) cs)
  = slice_last 100 (recorded_requests (since_reset cs)).
Proof.
  induction cs as [|c cs IH] using rev_ind; [done|].
  rewrite run_snoc, since_reset_snoc.
  destruct c as [data now|data|]; simpl.
  - unfold recorded_requests in *. rewrite omap_app. simpl.
    rewrite IH. unfold maxStoredRequests. case_bool_decide as E.
    + apply slice_last_snoc. lia.
    + rewrite <- slice_last_snoc by lia.
      symmetry. apply slice_last_short. lia.
  - unfold recorded_requests in *. rewrite omap_app. simpl.
    by rewrite app_nil_r.
  - done.
Qed.

End MetricsCounters.

(** * MetricsCollector: the hourly histogram *)
Section MetricsHourly.
Import Metrics.

Lemma hour_key_index t :
  hour_key t = (hour_index t `div` 24, hour_index t `mod` 24).
Proof.
  unfold hour_key, hour_index, ms_per_day, ms_per_hour.
  change (60 * 60 * 1000) with 3600000.
  change (24 * 3600000) with (3600000 * 24).
  f_equal.
  - by rewrite Z.div_div by lia.
  - rewrite Z.rem_mul_r by lia.
    rewrite (Z.mul_comm 3600000), Z.div_add by lia.
    rewrite Z.div_small by (apply Z.mod_pos_bound; lia). lia.
Qed.

Lemma hour_key_inj s t : hour_key s = hour_key t → hour_index s = hour_index t.
Proof.
  rewrite !hour_key_index. intros [= Hd Hm].
  rewrite (Z.div_mod (hour_index s) 24), (Z.div_mod (hour_index t) 24) by lia.
  congruence.
Qed.

Lemma hour_index_back now i :
  hour_index (now - i * ms_per_hour) = hour_index now - i.
Proof.
  unfold hour_index.
  replace (now - i * ms_per_hour) with (now + (- i) * ms_per_hour) by lia.
  rewrite Z.div_add by (unfold ms_per_hour; lia). lia.
Qed.

Lemma hour_key_back_inj now i j :
  hour_key (now - i * ms_per_hour) = hour_key (now - j * ms_per_hour) → i = j.
Proof.
  intros H. apply hour_key_inj in H. rewrite !hour_index_back in H. lia.
Qed.

Lemma foldl_od_set_fresh {K V} `{EqDecision K} (f : Z → K) (v : V)
    (ks : list Z) (acc : list (K * V)) :
  NoDup (od_keys acc ++ (f <$> ks)) →
  foldl (λ hourly i, od_set (f i) v hourly) acc ks
  = acc ++ ((λ i, (f i, v)) <$> ks).
Proof.
  revert acc. induction ks as [|i ks IH]; intros acc Hnd; simpl.
  - by rewrite app_nil_r.
  - rewrite fmap_cons in Hnd.
    assert (f i ∉ od_keys acc) as Hfresh.
    { apply NoDup_app in Hnd as (_ & Hdisj & _).
      intros Hin. apply (Hdisj _ Hin). apply elem_of_cons. by left. }
    rewrite od_set_fresh by done. rewrite IH.
    + by rewrite <- app_assoc.
    + unfold od_keys in *. rewrite fmap_app. simpl.
      rewrite <- app_assoc. done.
Qed.

Lemma trailing_NoDup : NoDup trailing.
Proof.
  unfold trailing. apply NoDup_fmap_2; [apply _|].
  rewrite reverse_Permutation. apply NoDup_seq.
Qed.

Lemma hourly_init_spec now :
  hourly_init now
  = (λ i, (hour_key (now - i * ms_per_hour), 0%nat)) <$> trailing.
Proof.
  unfold hourly_init.
  rewrite (foldl_od_set_fresh (λ i, hour_key (now - i * ms_per_hour)));
    [done|].
  change (od_keys [] ++ ?l) with l.
  apply NoDup_fmap_2_strong; [|apply trailing_NoDup].
  intros i j _ _. apply hour_key_back_inj.
Qed.

(** Counting one request leaves the keys in place and adds one to the
    bucket of its hour, when there is one. *)
Lemma hourly_count_spec (hourly : list ((Z * Z) * nat)) (req : Request) :
  NoDup (od_keys hourly) →
  hourly_count hourly req
  = (λ '(hour, count),
       (hour, if decide (hour = hour_key (rq_timestamp req))
              then S count else count)) <$> hourly.
Proof.
  unfold hourly_count, od_keys. set (key := hour_key (rq_timestamp req)).
  induction hourly as [|[k c] hourly IH]; [done|]. simpl.
  intros Hnd. apply NoDup_cons in Hnd as [Hk Hnd].
  destruct (decide (k = key)) as [->|Hne].
  - simpl. f_equal. clear IH.
    induction hourly as [|[k' c'] hourly IH]; [done|].
    rewrite !fmap_cons in *. apply not_elem_of_cons in Hk as [Hk1 Hk2].
    apply NoDup_cons in Hnd as [_ Hnd]. cbn beta iota.
    rewrite decide_False by done. f_equal. by apply IH.
  - specialize (IH Hnd). destruct (od_get key hourly) as [count|] eqn:E.
    + simpl. by rewrite IH.
    + simpl. f_equal. exact IH.
Qed.

Lemma hourly_count_keys (hourly : list ((Z * Z) * nat)) (req : Request) :
  NoDup (od_keys hourly) →
  od_keys (hourly_count hourly req) = od_keys hourly.
Proof.
  intros Hnd. rewrite hourly_count_spec by done. unfold od_keys.
  rewrite <- list_fmap_compose. apply list_fmap_ext.
  by intros _ [k c] _.
Qed.

Lemma hourly_fold_spec (reqs : list Request) (hourly : list ((Z * Z) * nat)) :
  NoDup (od_keys hourly) →
  foldl hourly_count hourly reqs
  = (λ '(hour, count),
       (hour,
        (count + length (filter (λ r, hour_key (rq_timestamp r) = hour) reqs))%nat))
    <$> hourly.
Proof.
  revert hourly. induction reqs as [|req reqs IH]; intros hourly Hnd; simpl.
  - rewrite <- (list_fmap_id hourly) at 1. apply list_fmap_ext.
    intros _ [k c] _. simpl. f_equal. lia.
  - rewrite IH by (by rewrite hourly_count_keys).
    rewrite hourly_count_spec by done. rewrite <- list_fmap_compose.
    apply list_fmap_ext. intros _ [k c] _. simpl. f_equal.
    destruct (decide (k = hour_key (rq_timestamp req))) as [->|Hne].
    + rewrite filter_cons_True by done. simpl. lia.
    + by rewrite filter_cons_False by congruence.
Qed.

Lemma hourly_stats_by_key (m : MetricsCollector) (now : Z) :
  getHourlyStats m now
  = (λ i, {| hs_hour := (hour_key (now - i * ms_per_hour)).2;
             hs_count := requests_in_hour m (now - i * ms_per_hour) |})
    <$> trailing.
Proof.
  unfold getHourlyStats.
  assert (NoDup (od_keys (hourly_init now))) as Hnd.
  { rewrite hourly_init_spec. unfold od_keys.
    rewrite <- list_fmap_compose.
    apply NoDup_fmap_2_strong; [|apply trailing_NoDup].
    intros i j _ _. apply hour_key_back_inj. }
  rewrite hourly_fold_spec by done. rewrite hourly_init_spec.
  rewrite <- !list_fmap_compose. apply list_fmap_ext.
  intros _ i _. simpl. done.
Qed.

Lemma hour_index_literal t : hour_index t = t `div` 3600000.
Proof. done. Qed.

Lemma same_hour_key s t :
  hour_key s = hour_key t ↔ s `div` 3600000 = t `div` 3600000.
Proof.
  rewrite <- !hour_index_literal. split.
  - apply hour_key_inj.
  - intros H. by rewrite !hour_key_index, H.
Qed.

Lemma trailing_ascending : trailing = (λ k, 23 - k) <$> seqZ 0 24.
Proof. reflexivity. Qed.

(** C8. Whatever the collector holds, and in particular when it holds
    nothing, [getHourlyStats] (the [hourlyCounts] of a snapshot) has
    exactly 24 entries, one for each of the trailing 24 calendar hours,
    oldest first. With the clock in hour number [now / 3600000] (hours
    since the epoch, UTC), entry [k], for [k] from 0 to 23, stands for hour
    number [now / 3600000 - 23 + k]: its label is that hour of the day (the
    hour number modulo 24) and its count is the number of stored requests
    stamped in that hour, 0 when there is none. *)
Theorem hourly_histogram_24 (m : MetricsCollector) (now start : Z) :
  length (hourlyCounts (getMetrics m now)) = 24%nat ∧
  hourlyCounts (getMetrics m now)
  = (λ k, {| hs_hour := (now `div` 3600000 - 23 + k) `mod` 24;
             hs_count :=
               length (filter (λ r, rq_timestamp r `div` 3600000
                                    = now `div` 3600000 - 23 + k)
                              (requests m)) |})
    <$> seqZ 0 24 ∧
  hourlyCounts (getMetrics (constructor start) now)
  = (λ k, {| hs_hour := (now `div` 3600000 - 23 + k) `mod` 24;
             hs_count := 0 |}) <$> seqZ 0 24.
Proof.
  assert (∀ m', getHourlyStats m' now
    = (λ k, {| hs_hour := (now `div` 3600000 - 23 + k) `mod` 24;
               hs_count :=
                 length (filter (λ r, rq_timestamp r `div` 3600000
                                      = now `div` 3600000 - 23 + k)
                                (requests m')) |})
      <$> seqZ 0 24) as Hspec.
  { intros m'. rewrite hourly_stats_by_key, trailing_ascending.
    rewrite <- list_fmap_compose. apply list_fmap_ext.
    intros _ k _. unfold compose. cbn beta. f_equal.
    - rewrite hour_key_index, hour_index_back, hour_index_literal.
      cbn [snd]. f_equal. lia.
    - unfold requests_in_hour. f_equal. apply list_filter_iff.
      intros r. rewrite same_hour_key.
      rewrite <- (hour_index_literal (now - _)), hour_index_back,
        hour_index_literal.
      split; intros ->; lia. }
  simpl. rewrite !Hspec. split; [|split; [done|]].
  - by rewrite length_fmap.
  - done.
Qed.
End MetricsHourly.

(** * MetricsCollector: what the snapshot shows of a history *)
Section MetricsMore.
Import Metrics MetricsHistory.

Lemma slice_last_reverse {A} (n : nat) (l : list A) :
  reverse (slice_last n l) = take n (reverse l).
Proof. unfold slice_last. by rewrite take_reverse. Qed.

(** The stored requests are the latest 100 recorded since the last reset,
    oldest first, and [recentRequests] of a snapshot are the latest 20 of
    them, newest first; with fewer recorded, all of them. *)
Theorem recent_requests_newest_first (start now : Z) (cs : list call) :
  let m := run (constructor start) cs in
  let recorded := recorded_requests (since_reset cs) in
  requests m = slice_last 100 recorded ∧
  recentRequests (getMetrics m now) = take 20 (reverse recorded) ∧
  (length (recentRequests (getMetrics m now)) ≤ 20)%nat.
Proof.
  intros m recorded.
  assert (recentRequests (getMetrics m now) = take 20 (reverse recorded)) as H.
  { simpl. unfold m. rewrite requests_are_latest. fold recorded.
    by rewrite !slice_last_reverse, take_take. }
  split; [apply requests_are_latest|]. split; [exact H|].
  rewrite H, length_take. lia.
Qed.

Lemma od_get_app_fresh {K V} `{EqDecision K} (k : K) (v : V)
    (m : list (K * V)) :
  k ∉ od_keys m → od_get k (m ++ [(k, v)]) = Some v.
Proof.
  unfold od_keys. induction m as [|[k' v'] m IH]; simpl; intros Hk.
  - by rewrite decide_True.
  - apply not_elem_of_cons in Hk as [Hne Hk].
    rewrite decide_False by done. by apply IH.
Qed.

(** A response just recorded can be read back under its id, also when
    recording it made the mapping evict its oldest entry. *)
Theorem recorded_response_readable (start : Z) (cs : list call)
    (data : ResponseData) :
  let m := run (constructor start) cs in
  od_get (rs_id data) (responses (recordResponse data m)) = Some data.
Proof.
  intros m.
  destruct (run_ok (constructor start) cs (constructor_ok start))
    as (_ & Hlen & Hnd).
  fold m in Hlen, Hnd. unfold maxStoredRequests in Hlen. simpl.
  case_bool_decide as Hfull; [|apply od_get_set].
  destruct (decide (rs_id data ∈ od_keys (responses m))) as [Hin|Hfresh].
  - exfalso. unfold maxStoredRequests in Hfull.
    assert (length (od_keys (od_set (rs_id data) data (responses m)))
            = length (od_keys (responses m))) as Hsame
      by (by rewrite od_keys_set_elem).
    unfold od_keys in Hsame. rewrite !length_fmap in Hsame. lia.
  - rewrite od_set_fresh in * by done.
    rewrite evict_oldest_tail.
    + destruct (responses m) as [|[k v] rest] eqn:E.
      * simpl in Hfull. unfold maxStoredRequests in Hfull. lia.
      * simpl. apply od_get_app_fresh.
        unfold od_keys in *. rewrite fmap_cons in Hfresh.
        by apply not_elem_of_cons in Hfresh as [_ ?].
    + rewrite <- (od_set_fresh (rs_id data) data) by done.
      by apply od_set_NoDup.
Qed.

Lemma durations_snoc cs c :
  durations (cs ++ [c])
  = durations cs ++ match c with
                    | RecordResponse data => [rs_duration data]
                    | _ => []
                    end.
Proof. unfold durations. rewrite omap_app. by destruct c. Qed.

Lemma sumZ_app l k : sumZ (l ++ k) = sumZ l + sumZ k.
Proof. unfold sumZ. induction l as [|x l IH]; simpl; lia. Qed.

(** [totalDuration] is the sum of the durations of all responses recorded
    since the last reset; the guard that skips a zero duration loses
    nothing, and eviction takes nothing away. *)
Theorem total_duration_is_sum (start : Z) (cs : list call) :
  totalDuration (run (constructor start) cs)
  = sumZ (durations (since_reset cs)).
Proof.
  induction cs as [|c cs IH] using rev_ind; [done|].
  rewrite run_snoc, since_reset_snoc.
  destruct c as [data now|data|]; simpl.
  - rewrite durations_snoc, sumZ_app. simpl. rewrite IH. lia.
  - rewrite durations_snoc, sumZ_app. simpl. rewrite IH.
    case_bool_decide; lia.
  - done.
Qed.





End MetricsMore.

(** * OAuthManager: fetches, expiry and refresh *)
Section OAuthFacts.
Import OAuth.

Lemma oauth_run_snoc l es e : run l (es ++ [e]) = step (run l es) e.
Proof. unfold run. by rewrite foldl_app. Qed.

Lemma concurrent_calls_snoc calls call :
  concurrent_calls (calls ++ [call])
  = concurrent_calls calls ++ [GetToken call.1 call.2].
Proof. unfold concurrent_calls. by rewrite fmap_app. Qed.

Lemma concurrent_calls_run (l : Loop) (calls : list (nat * Z)) :
  Forall (λ call, hasValidToken (mgr l) call.2 = false) calls →
  let l' := run l (concurrent_calls calls) in
  mgr l' = mgr l ∧
  posts l' = (posts l + length calls)%nat ∧
  inflight l' = inflight l ++ ((λ call, Caller call.1) <$> calls) ∧
  settled l' = settled l.
Proof.
  induction calls as [|call calls IH] using rev_ind; intros Hexp; simpl.
  - rewrite app_nil_r. repeat split. lia.
  - apply Forall_app in Hexp as [Hexp Hcall].
    rewrite Forall_singleton in Hcall.
    destruct (IH Hexp) as (Hm & Hp & Hi & Hs).
    rewrite concurrent_calls_snoc, oauth_run_snoc. simpl.
    unfold getToken. rewrite Hm, Hcall. simpl.
    rewrite Hp, Hi, Hs, length_app, fmap_app, app_assoc. simpl.
    repeat split; lia.
Qed.

(** One caller alone on the loop sees what [await_getToken] says. *)
Lemma await_getToken_loop (s : OAuthManager) (c : nat)
    (reply : PostResult) (now later : Z) :
  let '(s', outcome, posted) := await_getToken reply now later s in
  let l := run (idle s)
               (GetToken c now
                :: if posted then [PostSettles 0 reply later] else []) in
  mgr l = s' ∧ settled l = [(c, outcome)] ∧
  posts l = (if posted then 1 else 0)%nat ∧ inflight l = [].
Proof.
  unfold await_getToken, run. simpl. unfold getToken. simpl.
  destruct (hasValidToken s now); simpl; [done|].
  unfold post_settles. simpl. by destruct (fetchToken reply later s).
Qed.

(** C1, as the code has it. When the cached credential is expired, every
    one of N concurrent [getToken()] calls sends its own POST to the token
    endpoint: N calls, N fetches, nothing shared. Each caller's promise is
    the promise of its own [fetchToken()] call and settles with the outcome
    of that call's POST alone. *)
Theorem concurrent_getToken_fetch_each (s : OAuthManager)
    (calls : list (nat * Z)) :
  Forall (λ call, hasValidToken s call.2 = false) calls →
  let l := run (idle s) (concurrent_calls calls) in
  posts l = length calls ∧
  inflight l = (λ call, Caller call.1) <$> calls ∧
  settled l = [] ∧
  mgr l = s ∧
  (∀ k call reply now,
     calls !! k = Some call →
     settled (step l (PostSettles k reply now))
     = [(call.1, (fetchToken reply now s).2)]).
Proof.
  intros Hexp l.
  destruct (concurrent_calls_run (idle s) calls Hexp) as (Hm & Hp & Hi & Hs).
  fold l in Hm, Hp, Hi, Hs. simpl in *.
  repeat split; try done.
  intros k call reply now Hk. unfold post_settles.
  rewrite Hi, list_lookup_fmap, Hk. simpl. rewrite Hm, Hs.
  by destruct (fetchToken reply now s).
Qed.

(** C1 refuted: with the credential expired, two [getToken()] calls made
    back to back send two POSTs, and the two callers can see different
    outcomes (the first POST answered, the second refused). *)
Lemma concurrent_getToken_two_fetches :
  let l := run (idle stale) [GetToken 1 1000; GetToken 2 1000] in
  hasValidToken stale 1000 = false ∧
  posts l = 2%nat ∧
  posts l ≠ 1%nat ∧
  inflight l = [Caller 1; Caller 2] ∧
  settled (run l [PostSettles 0 fresh_reply 1500;
                  PostSettles 0 (Threw refused) 1600])
  = [(1%nat, Fulfilled (Some "new")); (2%nat, Rejected refused)].
Proof. by vm_compute. Qed.

Lemma concurrent_getToken_fetch_each_witness :
  let calls := [(1%nat, 1000); (2%nat, 1000); (3%nat, 1001)] in
  posts (run (idle stale) (concurrent_calls calls)) = 3%nat.
Proof.
  intros calls.
  apply (concurrent_getToken_fetch_each stale calls).
  repeat constructor.
Defined.

(** C5, as the code has it. After a successful fetch the stored expiry is
    the instant the response was handled plus 1000 ms for every second of
    the lifetime the token endpoint reported, when it reported one other
    than zero; when the response carries no [expires_in], the lifetime is
    taken to be 3600 seconds. The stored token is the reported one. *)
Theorem expiry_from_lifetime_or_default (s : OAuthManager) (now : Z)
    (data : TokenResponse) :
  let s' := (fetchToken (Responded (Some data)) now s).1 in
  token s' = access_token data ∧
  (∀ seconds, expires_in data = Some seconds → seconds ≠ 0 →
     tokenExpiry s' = Some (now + seconds * 1000)) ∧
  (expires_in data = None → tokenExpiry s' = Some (now + 3600 * 1000)).
Proof.
  simpl. unfold expiresIn. split; [done|]. split.
  - intros seconds -> Hne. by rewrite bool_decide_eq_true_2.
  - by intros ->.
Qed.

Lemma expiry_from_lifetime_or_default_witness :
  tokenExpiry
    (fetchToken
       (Responded (Some {| access_token := Some "new";
                           expires_in := Some 60 |})) 1000 stale).1
  = Some (1000 + 60 * 1000) ∧
  tokenExpiry
    (fetchToken
       (Responded (Some {| access_token := Some "new";
                           expires_in := None |})) 1000 stale).1
  = Some (1000 + 3600 * 1000).
Proof.
  split.
  - apply (expiry_from_lifetime_or_default stale 1000
             {| access_token := Some "new"; expires_in := Some 60 |});
      [reflexivity | lia].
  - apply (expiry_from_lifetime_or_default stale 1000
             {| access_token := Some "new"; expires_in := None |}).
    reflexivity.
Defined.

(** C5 refuted: a token response without [expires_in] is a successful
    fetch, and the expiry stored for it is not the fetch instant plus a
    reported lifetime (none was reported) but an hour from the fetch. *)
Lemma expiry_without_reported_lifetime :
  let data := {| access_token := Some "new"; expires_in := None |} in
  let s' := (fetchToken (Responded (Some data)) 1000 stale).1 in
  token s' = Some "new" ∧
  reported_expiry 1000 data = None ∧
  tokenExpiry s' = Some 3601000 ∧
  tokenExpiry s' ≠ reported_expiry 1000 data.
Proof. by vm_compute. Qed.



End OAuthFacts.

(** * OAuthManager: the validity window *)
Section OAuthMore.
Import OAuth.

Lemma served_calls_run (l : Loop) (calls : list (nat * Z)) :
  Forall (λ call, hasValidToken (mgr l) call.2 = true) calls →
  let l' := run l (concurrent_calls calls) in
  mgr l' = mgr l ∧ posts l' = posts l ∧ inflight l' = inflight l ∧
  settled l'
  = settled l ++ ((λ call, (call.1, Fulfilled (token (mgr l)))) <$> calls).
Proof.
  induction calls as [|call calls IH] using rev_ind; intros Hvalid; simpl.
  - by rewrite app_nil_r.
  - apply Forall_app in Hvalid as [Hvalid Hcall].
    rewrite Forall_singleton in Hcall.
    destruct (IH Hvalid) as (Hm & Hp & Hi & Hs).
    rewrite concurrent_calls_snoc, oauth_run_snoc. simpl.
    unfold getToken. rewrite Hm, Hcall. simpl.
    by rewrite Hp, Hi, Hs, fmap_app, app_assoc.
Qed.

(** Within the validity window of the cached credential, any number of
    [getToken()] calls are all answered with the cached token, in calling
    order, and none of them sends a POST or changes the manager. *)
Theorem valid_token_served_without_fetch (s : OAuthManager)
    (calls : list (nat * Z)) :
  Forall (λ call, hasValidToken s call.2 = true) calls →
  let l := run (idle s) (concurrent_calls calls) in
  posts l = 0%nat ∧
  inflight l = [] ∧
  mgr l = s ∧
  settled l = (λ call, (call.1, Fulfilled (token s))) <$> calls.
Proof.
  intros Hvalid l.
  destruct (served_calls_run (idle s) calls Hvalid) as (Hm & Hp & Hi & Hs).
  by fold l in Hm, Hp, Hi, Hs.
Qed.

Lemma valid_token_served_without_fetch_witness :
  let s := {| token := Some "tok"; tokenExpiry := Some 9000 |} in
  settled (run (idle s) (concurrent_calls [(1%nat, 10); (2%nat, 8999)]))
  = [(1%nat, Fulfilled (Some "tok")); (2%nat, Fulfilled (Some "tok"))].
Proof.
  intros s.
  apply (valid_token_served_without_fetch s [(1%nat, 10); (2%nat, 8999)]).
  repeat constructor.
Defined.

(** A fetch that brings a non-empty token and a lifetime other than zero
    makes [hasValidToken()] true at exactly the instants before the fetch
    instant plus that lifetime, whatever was cached before. *)
Theorem fetched_token_valid_until_expiry (s : OAuthManager) (now t : Z)
    (data : TokenResponse) (tok : string) (seconds : Z) :
  access_token data = Some tok → tok ≠ "" →
  expires_in data = Some seconds → seconds ≠ 0 →
  hasValidToken (fetchToken (Responded (Some data)) now s).1 t
  = bool_decide (t < now + seconds * 1000).
Proof.
  intros Htok Hne Hexp Hsec. unfold hasValidToken, expiresIn. simpl.
  unfold expiresIn. rewrite Htok, Hexp. simpl.
  rewrite (bool_decide_eq_true_2 (seconds ≠ 0)) by done.
  unfold truthy_string. by rewrite (bool_decide_eq_true_2 (tok ≠ "")).
Qed.

Lemma fetched_token_valid_until_expiry_witness :
  hasValidToken
    (fetchToken
       (Responded (Some {| access_token := Some "new"; expires_in := Some 60 |}))
       1000 stale).1 60999
  = bool_decide (60999 < 1000 + 60 * 1000).
Proof.
  apply (fetched_token_valid_until_expiry stale 1000 60999
           {| access_token := Some "new"; expires_in := Some 60 |} "new" 60);
    [reflexivity | discriminate | reflexivity | lia].
Defined.

(** A token response without a token (none, or the empty string) still
    counts as a successful fetch: the promise is fulfilled, with that
    absent token, and the manager is left without a valid credential at
    every instant, even if the one it replaced was still good. *)
Theorem tokenless_response_invalidates (s : OAuthManager) (now : Z)
    (data : TokenResponse) :
  (access_token data = None ∨ access_token data = Some "") →
  (fetchToken (Responded (Some data)) now s).2 = Fulfilled (access_token data) ∧
  ∀ t, hasValidToken (fetchToken (Responded (Some data)) now s).1 t = false.
Proof.
  intros Htok. split; [done|]. intros t. unfold hasValidToken. simpl.
  by destruct Htok as [-> | ->].
Qed.

Lemma tokenless_response_invalidates_witness :
  let data := {| access_token := None; expires_in := Some 60 |} in
  hasValidToken (mgr serving) 5000 = true ∧
  hasValidToken (fetchToken (Responded (Some data)) 5000 (mgr serving)).1 5001
  = false.
Proof.
  intros data. split; [reflexivity|].
  apply (tokenless_response_invalidates (mgr serving) 5000 data).
  left. reflexivity.
Defined.

(** [getNextRefreshTime()] is [null] until a fetch has stored an expiry.
    From then on it reports that expiry together with the whole seconds
    left until it, rounded down and never negative: 0 once the expiry has
    passed. *)
Theorem next_refresh_time_floor (s : OAuthManager) (now expiry : Z) :
  getNextRefreshTime constructor now = None ∧
  (tokenExpiry s = Some expiry → expiry ≠ 0 →
   ∃ seconds,
     getNextRefreshTime s now = Some (seconds, expiry) ∧
     0 ≤ seconds ∧
     seconds * 1000 ≤ 0 `max` (expiry - now) < seconds * 1000 + 1000 ∧
     (expiry ≤ now → seconds = 0)).
Proof.
  split; [done|]. intros Hexp Hne. unfold getNextRefreshTime.
  rewrite Hexp, bool_decide_eq_true_2 by done.
  eexists. split; [reflexivity|].
  set (left := 0 `max` (expiry - now)).
  assert (0 ≤ left) by (unfold left; lia).
  pose proof (Z.div_mod left 1000 ltac:(lia)) as Hdm.
  pose proof (Z.mod_pos_bound left 1000 ltac:(lia)) as Hmod.
  repeat split.
  - apply Z.div_pos; lia.
  - lia.
  - lia.
  - intros Hpast. replace left with 0 by (unfold left; lia). done.
Qed.

Lemma next_refresh_time_floor_witness :
  ∃ seconds,
    getNextRefreshTime stale 100 = Some (seconds, 500) ∧ 0 ≤ seconds.
Proof.
  destruct (next_refresh_time_floor stale 100 500) as [_ H].
  destruct H as (seconds & Hget & Hpos & _); [reflexivity | lia |].
  exists seconds. split; [exact Hget | exact Hpos].
Defined.
End OAuthMore.

(** * The refresh timer and the start of the process *)
Section LifecycleFacts.
Import Lifecycle.

Lemma clearInterval_only (h : nat) : clearInterval h [h] = [].
Proof. unfold clearInterval. by rewrite filter_cons_False by tauto. Qed.

Lemma startAutoRefresh_ok m : timers_ok m → timers_ok (startAutoRefresh m).
Proof.
  intros [Harmed Hfresh]. unfold timers_ok, startAutoRefresh. simpl.
  destruct (refreshTimer m) as [old|]; simpl in *; rewrite Harmed.
  - rewrite clearInterval_only. simpl. split; [done|].
    intros h Hh. apply list_elem_of_singleton in Hh. lia.
  - simpl. split; [done|].
    intros h Hh. apply list_elem_of_singleton in Hh. lia.
Qed.

Lemma destroy_ok m : timers_ok m → timers_ok (destroy m).
Proof.
  intros [Harmed Hfresh]. unfold timers_ok, destroy.
  destruct (refreshTimer m) as [old|] eqn:E; simpl in *.
  - rewrite Harmed, clearInterval_only. split; [done|].
    intros h Hh. by apply elem_of_nil in Hh.
  - rewrite E. by split.
Qed.

Lemma lifecycle_step_ok m c : timers_ok m → timers_ok (step m c).
Proof.
  intros Hm. destruct c as [reply now| |reply now|]; simpl.
  - unfold initialize.
    destruct (OAuth.fetchToken reply now (state m)) as [s [tok|error]]; simpl.
    + by apply startAutoRefresh_ok.
    + done.
  - by apply startAutoRefresh_ok.
  - done.
  - by apply destroy_ok.
Qed.

Lemma lifecycle_run_ok m cs : timers_ok m → timers_ok (run m cs).
Proof.
  revert m. induction cs as [|c cs IH]; intros m Hm; [done|].
  simpl. apply IH. by apply lifecycle_step_ok.
Qed.

(** However [initialize], [startAutoRefresh], timer firings and [destroy]
    follow one another on a new manager, at most one refresh timer is
    armed, and it is the one on record: [startAutoRefresh] replaces the
    armed timer instead of adding a second, and after [destroy] none is
    armed. *)
Theorem one_refresh_timer (cs : list call) :
  let m := run constructor cs in
  intervals m = option_list (refreshTimer m) ∧
  (length (intervals m) ≤ 1)%nat ∧
  intervals (startAutoRefresh m) = [next_handle m] ∧
  intervals (destroy m) = [] ∧
  refreshTimer (destroy m) = None.
Proof.
  intros m.
  assert (timers_ok m) as Hm.
  { apply lifecycle_run_ok. split; [done|].
    intros h Hh. by apply elem_of_nil in Hh. }
  destruct Hm as [Harmed Hfresh].
  split; [done|]. split; [rewrite Harmed; destruct (refreshTimer m); simpl; lia|].
  unfold startAutoRefresh, destroy.
  destruct (refreshTimer m) as [old|] eqn:E; simpl in *.
  - rewrite Harmed, clearInterval_only. done.
  - rewrite Harmed, E. done.
Qed.




End LifecycleFacts.

(** * ProxyHandler: entry check, defaults and recorded events *)
Section ProxyFacts.
Import Proxy.

Ltac run_handler :=
  unfold handleChatCompletion, handleCompletion, on_error,
    handleRegularResponse, handleStreamingResponse, post, res_json,
    res_writeHead, try_catch, getToken, recordRequest, recordResponse,
    emit, elapse, now, get_headersSent, set_headersSent, throw,
    mbind, M_bind, mret, M_ret, on_rejected;
  cbn beta iota delta [fst snd log metrics oauth clock headersSent].




(** The chat handler turns away a request whose header is missing or does
    not begin with the bearer scheme: 401 with the error envelope, and
    nothing else happens. *)
Lemma chat_turns_away (env : Env) (req : Request) (w : World) :
  rejects_authorization (authorization req) = true →
  handleChatCompletion env req w
  = (inr (), {| metrics := metrics w; oauth := oauth w; clock := clock w;
                headersSent := true;
                log := log w ++ [SentJson 401 unauthorized] |}).
Proof. intros H. run_handler. by rewrite H. Qed.

(** C2 at its failing inputs. The completion handler has no entry check:
    a request without an [Authorization] header is given the cached
    credential, recorded as a RequestEvent and a ResponseEvent, posted to
    the API and answered 200, where the chat handler answers the same
    request 401 and does nothing else. And the chat handler's check lets
    the bearer scheme with an empty key through. *)
Theorem completion_skips_entry_check :
  rejects_authorization (authorization anonymous) = true ∧
  (let w := (handleChatCompletion env1 anonymous serving).2 in
   sent_codes (log w) = [401] ∧
   upstream_calls (log w) = [] ∧
   metrics w = metrics serving) ∧
  (let w := (handleCompletion env1 anonymous serving).2 in
   sent_codes (log w) = [200] ∧
   length (upstream_calls (log w)) = 1%nat ∧
   request_events (log w) = ["req_1000_abc"] ∧
   response_events (log w) = ["req_1000_abc"] ∧
   length (Metrics.requests (metrics w)) = 1%nat) ∧
  (let w := (handleChatCompletion env1 empty_key serving).2 in
   sent_codes (log w) = [200] ∧
   length (upstream_calls (log w)) = 1%nat ∧
   request_events (log w) = ["req_1000_abc"]).
Proof. by vm_compute. Qed.

(** What [with_defaults] does to each generation parameter. The four
    parameters guarded by [!== undefined] take the default when omitted
    and keep whatever the caller wrote; [max_tokens], guarded by [||],
    takes the default when omitted and keeps the caller's value when it is
    truthy. Every other property of the body is passed on as it is. *)
Lemma with_defaults_spec (d : Defaults) (b : gmap string value) :
  let merged := with_defaults d b in
  let dflt key :=
    if decide (key = "temperature") then TEMPERATURE d
    else if decide (key = "top_p") then TOP_P d
    else if decide (key = "frequency_penalty") then FREQUENCY_PENALTY d
    else PRESENCE_PENALTY d in
  (∀ key,
     key ∈ ["temperature"; "top_p"; "frequency_penalty"; "presence_penalty"] →
     (b !! key = None → merged !! key = Some (VNum (dflt key))) ∧
     (∀ v, b !! key = Some v → v ≠ VUndefined → merged !! key = Some v)) ∧
  (b !! "max_tokens" = None →
   merged !! "max_tokens" = Some (VNum (MAX_TOKENS d))) ∧
  (∀ v, b !! "max_tokens" = Some v → truthy v = true →
        merged !! "max_tokens" = Some v) ∧
  (∀ v, b !! "max_tokens" = Some v → truthy v = false →
        merged !! "max_tokens" = Some (VNum (MAX_TOKENS d))) ∧
  (∀ key,
     key ∉ ["max_tokens"; "temperature"; "top_p"; "frequency_penalty";
            "presence_penalty"] →
     merged !! key = b !! key).
Proof.
  intros merged dflt. unfold merged, with_defaults, prop.
  split; [|split; [|split; [|split]]].
  - intros key Hkey.
    repeat (apply elem_of_cons in Hkey as [->|Hkey]);
      [| | | |by apply elem_of_nil in Hkey]; unfold dflt; simpl;
      (split; [intros Hb|intros v Hb Hv]); rewrite Hb; simpl;
      repeat (first [rewrite lookup_insert_eq | rewrite lookup_insert_ne by done]);
      try done; by destruct v.
  - intros Hb. rewrite Hb. simpl.
    by repeat (first [rewrite lookup_insert_eq | rewrite lookup_insert_ne by done]).
  - intros v Hb Hv. rewrite Hb. simpl.
    repeat (first [rewrite lookup_insert_eq | rewrite lookup_insert_ne by done]).
    unfold or_else. by rewrite Hv.
  - intros v Hb Hv. rewrite Hb. simpl.
    repeat (first [rewrite lookup_insert_eq | rewrite lookup_insert_ne by done]).
    unfold or_else. by rewrite Hv.
  - intros key Hkey. rewrite !not_elem_of_cons in Hkey.
    destruct Hkey as (? & ? & ? & ? & ? & _).
    by rewrite !lookup_insert_ne by done.
Qed.

(** C3 at its failing input. A caller who writes [max_tokens: 0] and
    [temperature: 0] has the temperature forwarded as written and the
    token limit replaced by the configured default, 4096: the body posted
    to the API differs from the caller's on [max_tokens]. *)
Theorem explicit_zero_max_tokens_replaced :
  let merged := with_defaults builtin_defaults (body zeroed) in
  body zeroed !! "max_tokens" = Some zero ∧
  body zeroed !! "temperature" = Some zero ∧
  merged !! "temperature" = Some zero ∧
  merged !! "max_tokens" = Some (VNum (Fin (Qc_of_Z 4096))) ∧
  merged !! "max_tokens" ≠ body zeroed !! "max_tokens" ∧
  posted_bodies (log (handleChatCompletion env1 zeroed serving).2) = [merged] ∧
  posted_bodies (log (handleCompletion env1 zeroed serving).2) = [merged].
Proof.
  intros merged. do 4 (split; [by vm_compute|]).
  split; [|split; by vm_compute].
  intros H. vm_compute in H. discriminate H.
Qed.



(** C4 at its failing input. A chat request passes the entry check while
    the credential has lapsed and the token endpoint refuses the fetch:
    the handler records a ResponseEvent (outcome error) under the request's
    id and no RequestEvent at all, so the collector holds a response
    without a request. *)
Theorem response_without_request :
  let w := (handleChatCompletion env1 zeroed lapsed).2 in
  rejects_authorization (authorization zeroed) = false ∧
  log w = [TokenPost;
           RecordedResponse {| Metrics.rs_id := "req_1000_abc";
                               Metrics.rs_duration := 5;
                               Metrics.rs_status := "error";
                               Metrics.rs_error := Some "connect ECONNREFUSED" |};
           SentJson 500 (ErrorEnvelope "connect ECONNREFUSED" "proxy_error" None)] ∧
  request_events (log w) = [] ∧
  response_events (log w) = ["req_1000_abc"] ∧
  Metrics.requests (metrics w) = [] ∧
  od_keys (Metrics.responses (metrics w)) = ["req_1000_abc"] ∧
  Metrics.errorCount (metrics w) = 1%nat ∧
  request_events (log (handleCompletion env1 zeroed lapsed).2) = [] ∧
  response_events (log (handleCompletion env1 zeroed lapsed).2)
  = ["req_1000_abc"].
Proof. by vm_compute. Qed.
End ProxyFacts.

(** * ProxyHandler: what reaches the API and what reaches the caller *)
Section ProxyMore.
Import Proxy ProxyLog.

Ltac unfold_handler :=
  unfold handleChatCompletion, handleCompletion, on_error,
    handleRegularResponse, handleStreamingResponse,
    post, res_json, res_writeHead, try_catch, getToken, recordRequest,
    recordResponse, emit, elapse, now, get_headersSent, set_headersSent,
    throw, mbind, M_bind, mret, M_ret, on_rejected;
  cbn beta iota delta [fst snd log metrics oauth clock headersSent].

Ltac read_log :=
  unfold head_codes, api_calls, sent_bodies, recorded_outcomes,
    upstream_calls;
  rewrite ?omap_app, ?filter_app; cbn -[formatErrorResponse with_defaults];
  rewrite ?app_nil_r, <- ?app_assoc; cbn -[formatErrorResponse with_defaults].

(** Follow a handler down every path that is still open, using what the
    hypotheses say first. *)
Ltac split_cases :=
  repeat (cbn -[formatErrorResponse with_defaults];
    match goal with
    | H : ?x = _ |- context [?x] => rewrite H
    | |- context [rejects_authorization ?a] =>
        destruct (rejects_authorization a)
    | |- context [OAuth.await_getToken ?a ?b ?c ?d] =>
        destruct (OAuth.await_getToken a b c d) as [[? [?|?]] []]
    | |- context [api_reply ?e] => destruct (api_reply e) as [?|?] eqn:?
    | |- context [err_response ?e] => destruct (err_response e) eqn:?
    | |- context [error_stream ?e] => destruct (error_stream e) eqn:?
    | |- context [resp_data ?r] =>
        destruct (resp_data r) as [| |[]|[|?]|?|?|?] eqn:?
    | |- context [if truthy ?v then _ else _] => destruct (truthy v) eqn:?
    | |- context [negb (truthy ?v)] => destruct (truthy v) eqn:?
    | |- context [truthy_string ?s && _] => destruct (truthy_string s) eqn:?
    | |- context [bool_decide ?P && _] => destruct (bool_decide P) eqn:?
    | |- context [negb (Proxy.headersSent ?w)] =>
        destruct (Proxy.headersSent w) eqn:?
    | |- context [if ?p then _ else _] => is_var p; destruct p
    end); cbn -[formatErrorResponse with_defaults].

Lemma chat_turns_away_witness :
  (handleChatCompletion env1 anonymous serving).2
  = {| metrics := metrics serving; oauth := oauth serving;
       clock := clock serving; headersSent := true;
       log := log serving ++ [SentJson 401 unauthorized] |}.
Proof.
  rewrite (chat_turns_away env1 anonymous serving); reflexivity.
Defined.

Lemma with_defaults_spec_witness :
  with_defaults builtin_defaults (body zeroed) !! "temperature" = Some zero.
Proof.
  destruct (with_defaults_spec builtin_defaults (body zeroed)) as [H _].
  destruct (H "temperature") as [_ Hkeep].
  - vm_compute. repeat constructor.
  - apply (Hkeep zero); [reflexivity | discriminate].
Defined.



(** Every run of either handler on a response whose head is still unsent
    writes exactly one response head (a JSON answer, or the head of the
    event stream), whatever the token endpoint and the API do, and ends
    normally. This includes the chat request that asked for a stream and
    got an error status from the API (answered with that status, or with
    500 when the upstream stream cannot be written as JSON) and the
    buffered chat answer whose body is a text or a number (answered with
    500). *)
Theorem one_response_head (env : Env) (req : Request) (w : World) :
  headersSent w = false →
  (∃ code,
     head_codes (log (handleChatCompletion env req w).2)
     = head_codes (log w) ++ [code]) ∧
  headersSent (handleChatCompletion env req w).2 = true ∧
  (∃ code,
     head_codes (log (handleCompletion env req w).2)
     = head_codes (log w) ++ [code]) ∧
  headersSent (handleCompletion env req w).2 = true ∧
  (handleChatCompletion env req w).1 = inr () ∧
  (handleCompletion env req w).1 = inr ().
Proof.
  intros Hunsent. unfold_handler.
  repeat split; split_cases; read_log; eauto.
Qed.

Lemma one_response_head_witness :
  (∃ code,
     head_codes (log (handleChatCompletion env1 zeroed lapsed).2)
     = head_codes (log lapsed) ++ [code]) ∧
  (∃ code,
     head_codes (log (handleChatCompletion gateway_down streamed serving).2)
     = head_codes (log serving) ++ [code]) ∧
  (∃ code,
     head_codes (log (handleChatCompletion text_answer zeroed serving).2)
     = head_codes (log serving) ++ [code]).
Proof.
  destruct (one_response_head env1 zeroed lapsed eq_refl) as [H1 _].
  destruct (one_response_head gateway_down streamed serving eq_refl)
    as [H2 _].
  destruct (one_response_head text_answer zeroed serving eq_refl)
    as [H3 _].
  by repeat split.
Defined.




(** When the credential cannot be had, nothing is posted to the API and the
    caller is answered once, with what [formatErrorResponse] makes of the
    error [getToken()] threw: 500 with a [proxy_error] envelope when the
    token endpoint did not answer, and the token endpoint's own status and
    body when it answered with an error. *)
Theorem credential_error_answered (env : Env) (req : Request) (w : World)
    (s : OAuth.OAuthManager) (posted : bool) (e : JsError) :
  headersSent w = false →
  OAuth.await_getToken (token_reply env) (clock w)
                       (clock w + token_latency env) (oauth w)
  = (s, OAuth.Rejected e, posted) →
  (rejects_authorization (authorization req) = false →
   api_calls (log (handleChatCompletion env req w).2) = api_calls (log w) ∧
   sent_bodies (log (handleChatCompletion env req w).2)
   = sent_bodies (log w) ++ [formatErrorResponse e]) ∧
  api_calls (log (handleCompletion env req w).2) = api_calls (log w) ∧
  sent_bodies (log (handleCompletion env req w).2)
  = sent_bodies (log w) ++ [formatErrorResponse e].
Proof.
  intros Hunsent Htok.
  split; [intros Hauth|]; unfold_handler; rewrite ?Hauth, Htok; cbn;
    destruct posted; cbn; rewrite ?Hunsent; cbn; read_log;
    rewrite <- ?surjective_pairing; done.
Qed.

Lemma credential_error_answered_witness :
  api_calls (log (handleCompletion env1 zeroed lapsed).2)
  = api_calls (log lapsed) ∧
  sent_bodies (log (handleCompletion env1 zeroed lapsed).2)
  = sent_bodies (log lapsed) ++ [formatErrorResponse OAuth.refused].
Proof.
  apply (credential_error_answered env1 zeroed lapsed (oauth lapsed) true
           OAuth.refused); reflexivity.
Defined.




(** What the buffered chat path does with the API's answer. An object
    without a truthy [_proxy] is relayed, with the API's status, with a
    [_proxy] entry naming the request set on it (in place of a falsy one, or
    at the end), every other property as it came. An object that has a
    truthy [_proxy], an array, and a falsy body (none, an empty text, 0)
    are relayed as they are. A truthy body that is no object (a non-empty
    text, a number, [true]) is not relayed: setting [_proxy] on it throws,
    and nothing is sent from here. *)
Theorem proxy_metadata_attached (env : Env) (requestBody : gmap string value)
    (apiUrl : string) (token : option string) (id : string) (w : World)
    (r : HttpResponse) :
  api_reply env = inr r →
  (∀ fields,
     resp_data r = VObject fields →
     truthy (own_prop (resp_data r) "_proxy") = false →
     sent_bodies
       (log (handleRegularResponse env requestBody apiUrl token id w).2)
     = sent_bodies (log w)
       ++ [(resp_status r,
            Relay (VObject (od_set "_proxy" (proxy_metadata id) fields)))] ∧
     od_get "_proxy" (od_set "_proxy" (proxy_metadata id) fields)
     = Some (proxy_metadata id) ∧
     ∀ key, key ≠ "_proxy" →
       od_get key (od_set "_proxy" (proxy_metadata id) fields)
       = od_get key fields) ∧
  (truthy (resp_data r) = false
   ∨ truthy (own_prop (resp_data r) "_proxy") = true
   ∨ (∃ items, resp_data r = VArray items) →
   sent_bodies
     (log (handleRegularResponse env requestBody apiUrl token id w).2)
   = sent_bodies (log w) ++ [(resp_status r, Relay (resp_data r))]) ∧
  (truthy_primitive (resp_data r) = true →
   sent_bodies
     (log (handleRegularResponse env requestBody apiUrl token id w).2)
   = sent_bodies (log w) ∧
   head_codes
     (log (handleRegularResponse env requestBody apiUrl token id w).2)
   = head_codes (log w) ∧
   (handleRegularResponse env requestBody apiUrl token id w).1
   = inl cannot_create_property).
Proof.
  intros Hapi. split; [|split].
  - intros fields Hdata Hnone. unfold_handler. rewrite Hapi.
    cbn -[proxy_metadata]. rewrite Hnone. rewrite Hdata.
    cbn -[proxy_metadata]. read_log. split; [done|]. split.
    + apply od_get_set.
    + intros key Hkey. by apply od_get_set_ne.
  - intros Hcase. unfold_handler. rewrite Hapi. cbn -[proxy_metadata].
    destruct Hcase as [H|[H|[items H]]].
    + rewrite H. cbn. by read_log.
    + rewrite H, andb_false_r. cbn. by read_log.
    + rewrite H. cbn. by read_log.
  - intros Hprim. unfold_handler. rewrite Hapi. cbn -[proxy_metadata].
    destruct (resp_data r) as [| |b|n|str|items|fields]; try discriminate;
      cbn in Hprim; cbn -[proxy_metadata]; rewrite Hprim; cbn; by read_log.
Qed.

Lemma proxy_metadata_attached_witness :
  sent_bodies
    (log (handleRegularResponse env1 (body zeroed) "u" (Some "tok")
            "req_1" serving).2)
  = sent_bodies (log serving)
    ++ [(200, Relay (VObject [("id", VStr "cmpl-1");
                              ("_proxy", proxy_metadata "req_1")]))] ∧
  (handleRegularResponse text_answer (body zeroed) "u" (Some "tok")
     "req_1" serving).1
  = inl cannot_create_property.
Proof.
  destruct (proxy_metadata_attached env1 (body zeroed) "u" (Some "tok")
              "req_1" serving completion_ok eq_refl) as (H & _).
  destruct (H _ eq_refl eq_refl) as (Hsent & _).
  destruct (proxy_metadata_attached text_answer (body zeroed) "u"
              (Some "tok") "req_1" serving
              {| resp_status := 200; resp_statusText := "OK";
                 resp_data := VStr "pong" |} eq_refl) as (_ & _ & H').
  destruct (H' eq_refl) as (_ & _ & Hthrown).
  split; [exact Hsent | exact Hthrown].
Defined.


End ProxyMore.

(** * The stream relay *)
Section RelayFacts.
Import Proxy ProxyLog Relay.

Lemma relay_data (res : Res) (chunks : list string) :
  relay res (Data <$> chunks)
  = {| Relay.headersSent := Relay.headersSent res;
       late_status := late_status res;
       written := written res ++ chunks; ended := ended res |}.
Proof.
  revert res. induction chunks as [|chunk chunks IH]; intros res; simpl.
  - rewrite app_nil_r. by destruct res.
  - unfold relay in IH. rewrite IH. simpl. by rewrite <- app_assoc.
Qed.

Lemma stream_relayed_in_order_aux (res : Res) (chunks : list string) :
  relay res ((Data <$> chunks) ++ [End])
  = {| Relay.headersSent := Relay.headersSent res;
       late_status := late_status res;
       written := written res ++ chunks; ended := true |} ∧
  (Relay.headersSent res = true →
   ∀ message,
     relay res ((Data <$> chunks) ++ [Error message])
     = {| Relay.headersSent := true; late_status := late_status res;
          written := written res ++ chunks; ended := ended res |}).
Proof.
  unfold relay. split.
  - rewrite foldl_app. fold (relay res (Data <$> chunks)).
    by rewrite relay_data.
  - intros Hsent message. rewrite foldl_app.
    fold (relay res (Data <$> chunks)). rewrite relay_data. simpl.
    by rewrite Hsent.
Qed.

(** The relay writes the chunks of the upstream body to the caller one by
    one, in the order and with the boundaries they arrived in, and ends the
    caller's response when the upstream body ends. When the upstream body
    breaks off with an error after the head has been sent, what was
    received is written and the handler then neither writes a status nor
    ends the response. *)
Theorem stream_relayed_in_order (res : Res) (chunks : list string) :
  relay res ((Data <$> chunks) ++ [End])
  = {| Relay.headersSent := Relay.headersSent res;
       late_status := late_status res;
       written := written res ++ chunks; ended := true |} ∧
  (∀ message,
     Relay.headersSent res = true →
     relay res ((Data <$> chunks) ++ [Error message])
     = {| Relay.headersSent := true; late_status := late_status res;
          written := written res ++ chunks; ended := ended res |}).
Proof.
  destruct (stream_relayed_in_order_aux res chunks) as [Hend Herr].
  split; [exact Hend|]. intros message Hsent. by apply Herr.
Qed.

Lemma stream_relayed_in_order_witness :
  let res := {| Relay.headersSent := true; late_status := None;
                written := []; ended := false |} in
  relay res ((Data <$> ["a"; "b"; "c"]) ++ [Error "reset"])
  = {| Relay.headersSent := true; late_status := None;
       written := ["a"; "b"; "c"]; ended := false |}.
Proof.
  intros res.
  destruct (stream_relayed_in_order res ["a"; "b"; "c"]) as [_ H].
  exact (H "reset" eq_refl).
Defined.

End RelayFacts.

(** * DashboardServer: who is sent what *)
Section DashboardFacts.
Import Dashboard.

Lemma broadcast_fold (message : Message) (clients : list Client) (s : Server) :
  let s' := foldl (λ acc client,
                     if bool_decide (readyState client = OPEN)
                     then send (cid client) message acc
                     else acc) s clients in
  collector s' = collector s ∧ oauth s' = oauth s ∧ wss s' = wss s ∧
  sent s' = sent s ++ ((λ c, (c, message)) <$> open_sockets clients).
Proof.
  revert s. induction clients as [|client clients IH]; intros s; simpl.
  - by rewrite app_nil_r.
  - destruct (IH (if bool_decide (readyState client = OPEN)
                  then send (cid client) message s else s))
      as (Hc & Ho & Hw & Hs).
    rewrite Hc, Ho, Hw, Hs. unfold open_sockets.
    case_bool_decide as E.
    + rewrite filter_cons_True by done. simpl.
      by rewrite <- app_assoc.
    + by rewrite filter_cons_False by done.
Qed.

(** A broadcast sends one and the same update to every socket that is
    open, in the order the socket server lists them, and nothing to a
    socket in any other state; it changes neither the collector nor the
    credential manager. Before [start] and after [stop] it sends nothing. *)
Theorem broadcast_reaches_open_sockets (now : Z) (sys : value) (s : Server) :
  (wss s = None → broadcastUpdate now sys s = s) ∧
  broadcastUpdate now sys (stop s) = stop s ∧
  collector (broadcastUpdate now sys s) = collector s ∧
  oauth (broadcastUpdate now sys s) = oauth s ∧
  (∀ clients,
     wss s = Some clients →
     sent (broadcastUpdate now sys s)
     = sent s ++ ((λ c, (c, Update (getUpdateData now sys s)))
                  <$> open_sockets clients)).
Proof.
  unfold broadcastUpdate. split; [by intros ->|]. split; [done|].
  destruct (wss s) as [clients|] eqn:E.
  - destruct (broadcast_fold (Update (getUpdateData now sys s)) clients s)
      as (Hc & Ho & _ & Hs).
    split; [done|]. split; [done|]. by intros ? [= <-].
  - by repeat split.
Qed.

Lemma broadcast_reaches_open_sockets_witness :
  fst <$> sent (broadcastUpdate 9 VNull two_sockets) = [1%nat; 3%nat].
Proof.
  destruct (broadcast_reaches_open_sockets 9 VNull two_sockets)
    as (_ & _ & _ & _ & H).
  rewrite (H _ eq_refl). reflexivity.
Defined.

(** A [reset-metrics] message resets the collector and at once sends every
    open socket an update that shows the reset collector: no requests, no
    successes or errors, an average of 0, no model usage, no recent
    requests, and the uptime still counted from the collector's start. *)
Theorem reset_command_broadcasts_zeroes (now : Z) (sys : value) (ws : Client)
    (s : Server) (clients : list Client) :
  wss s = Some clients →
  let s' := on_message now sys ws (Typed (Some "reset-metrics")) s in
  collector s' = Metrics.reset (collector s) ∧
  ∃ update,
    sent s' = sent s ++ ((λ c, (c, Update update)) <$> open_sockets clients) ∧
    Metrics.totalRequests (metrics update) = 0%nat ∧
    Metrics.snap_successCount (metrics update) = 0%nat ∧
    Metrics.snap_errorCount (metrics update) = 0%nat ∧
    Metrics.avgResponseTime (metrics update) = 0 ∧
    Metrics.modelUsage (metrics update) = ∅ ∧
    Metrics.recentRequests (metrics update) = [] ∧
    Metrics.uptime (metrics update)
    = (now - Metrics.startTime (collector s)) `div` 1000 ∧
    hasToken update = OAuth.hasValidToken (oauth s) now.
Proof.
  intros Hwss s'. unfold s', on_message. simpl.
  set (cleared := {| collector := Metrics.reset (collector s);
                     oauth := oauth s; wss := wss s; sent := sent s |}).
  destruct (broadcast_reaches_open_sockets now sys cleared)
    as (_ & _ & Hc & _ & Hs).
  split; [exact Hc|].
  exists (getUpdateData now sys cleared). split; [exact (Hs clients Hwss)|].
  by repeat split.
Qed.

Lemma reset_command_broadcasts_zeroes_witness :
  collector (on_message 9 VNull {| cid := 1; readyState := OPEN |}
               (Typed (Some "reset-metrics")) two_sockets)
  = Metrics.reset (collector two_sockets).
Proof.
  destruct (reset_command_broadcasts_zeroes 9 VNull
              {| cid := 1; readyState := OPEN |} two_sockets _ eq_refl)
    as [H _].
  exact H.
Defined.

(** A [ping] is answered with one [pong] on the socket it came from and
    nothing is broadcast. A message that does not parse, or whose type is
    neither [ping] nor [reset-metrics], is dropped: nothing is sent. In all
    these cases the collector is left as it was. *)
Theorem ping_answered_on_its_socket (now : Z) (sys : value) (ws : Client)
    (s : Server) :
  sent (on_message now sys ws (Typed (Some "ping")) s)
  = sent s ++ [(cid ws, Pong)] ∧
  collector (on_message now sys ws (Typed (Some "ping")) s) = collector s ∧
  on_message now sys ws Unparsable s = s ∧
  on_message now sys ws (Typed None) s = s ∧
  (∀ type, type ≠ "ping" → type ≠ "reset-metrics" →
           on_message now sys ws (Typed (Some type)) s = s).
Proof.
  repeat split. intros type Hping Hreset. unfold on_message.
  rewrite !bool_decide_eq_false_2; [done|congruence|congruence].
Qed.

Lemma ping_answered_on_its_socket_witness :
  on_message 9 VNull {| cid := 1; readyState := OPEN |}
             (Typed (Some "subscribe")) two_sockets
  = two_sockets.
Proof.
  destruct (ping_answered_on_its_socket 9 VNull
              {| cid := 1; readyState := OPEN |} two_sockets)
    as (_ & _ & _ & _ & H).
  apply H; discriminate.
Defined.
End DashboardFacts.

